(** * Poncho: a verification development

    Shallow embedding of the three poncho tools

      - [poncho_package_analyze]  (import scanner and package resolver),
      - [poncho_package_create]   (spec synthesis and external data fetch),
      - [poncho_package_run]      (locked unpack / activate / execute),

    together with the properties their specification states about them.

    Python code is embedded as functions into an exception monad
    ([result]); dictionaries are [gmap]s, sets are [gset]s.  The shell
    runner is embedded twice: as a function producing the event trace and
    exit status of one invocation, and as a step relation over the shared
    target directory for concurrent invocations. *)

From Equations Require Import Equations.
From stdpp Require Import gmap strings list fin_maps sorting.
From Stdlib Require Import ZArith Ascii String Lia.

Local Open Scope string_scope.
Local Open Scope Z_scope.

(** ** Python exceptions and the exception monad *)

Module Py.

(** The exception classes the embedded code can raise.  [ImportError]
    carries the formatted message. *)
Inductive exn : Type :=
| ImportError (msg : string)
| AttributeError (msg : string)
| TypeError (msg : string)
| FileExistsError (path : string)
| NotADirectoryError (path : string)
| IsADirectoryError (path : string)
| CalledProcessError (argv : list string).

Inductive result (A : Type) : Type :=
| Ok (a : A)
| Raise (e : exn).
Arguments Ok {A} a.
Arguments Raise {A} e.

Definition bind {A B} (m : result A) (k : A → result B) : result B :=
  match m with
  | Ok a => k a
  | Raise e => Raise e
  end.

(** [for x in xs: acc = body(acc, x)], aborting at the first raise. *)
Fixpoint for_each {A S} (body : S → A → result S) (xs : list A) (s : S)
  : result S :=
  match xs with
  | [] => Ok s
  | x :: rest => bind (body s x) (for_each body rest)
  end.

End Py.

Notation "'let*' x ':=' m 'in' k" := (Py.bind m (fun x => k))
  (at level 10, x pattern, m at level 100, k at level 200, only parsing).

(** ** Strings as Python uses them *)

Module Str.

(** [s.startswith(p)] *)
Definition startswith (s p : string) : bool := String.prefix p s.

(** [s.split('.')[0]]: everything before the first dot. *)
Fixpoint before_dot (s : string) : string :=
  match s with
  | EmptyString => EmptyString
  | String c rest =>
      if Ascii.eqb c "."%char then EmptyString
      else String c (before_dot rest)
  end.

(** ['On {}, imports from the current module are not supported'.format(x)] *)
Definition relative_import_msg (x : string) : string :=
  "On " ++ x ++ ", imports from the current module are not supported".

(** ["Couldn't match {} to a conda/pip package".format(x)] *)
Definition no_match_msg (x : string) : string :=
  "Couldn't match " ++ x ++ " to a conda/pip package".

(** Python truthiness of a string: non-empty. *)
Definition truthy (s : string) : bool :=
  match s with EmptyString => false | _ => true end.

End Str.

(** ** The import scanner (poncho_package_analyze) *)

Module Scanner.
Import Py.

(** The part of Python's [ast] that the scanner inspects.  Every node
    carries its child nodes in [ast.iter_child_nodes] order; for a
    [Module] produced by [ast.parse] these are the statements of
    [module.body]. *)
Inductive kind : Type :=
| Module
| Import (names : list string)
| ImportFrom (module : option string) (level : Z)
| FunctionDef (name : string)
| Other.

#[local] Set Warnings "-register-all".
Inductive node : Type :=
| Node (k : kind) (children : list node).

Definition node_kind (n : node) : kind := let 'Node k _ := n in k.
Definition iter_child_nodes (n : node) : list node := let 'Node _ cs := n in cs.
Definition body (m : node) : list node := iter_child_nodes m.

Fixpoint node_size (n : node) : nat :=
  let 'Node _ cs := n in
  S ((fix forest (l : list node) : nat :=
        match l with
        | [] => O
        | c :: l' => (node_size c + forest l')%nat
        end) cs).

Fixpoint forest_size (l : list node) : nat :=
  match l with
  | [] => O
  | c :: l' => (node_size c + forest_size l')%nat
  end.

Lemma forest_size_app l1 l2 :
  forest_size (l1 ++ l2) = (forest_size l1 + forest_size l2)%nat.
Proof. induction l1 as [|c l1 IH]; simpl; [done | rewrite IH; lia]. Qed.

(** [ast.walk]: breadth-first, driven by a queue.

    todo = deque([node])
    while todo:
        node = todo.popleft()
        todo.extend(iter_child_nodes(node))
        yield node *)
Equations? walk_queue (todo : list node) : list node
  by wf (forest_size todo) lt :=
  walk_queue [] := [];
  walk_queue (n :: todo) := n :: walk_queue (todo ++ iter_child_nodes n).
Proof.
  destruct n as [k cs]. rewrite forest_size_app. cbn. fold (forest_size cs). lia.
Qed.

Definition walk (n : node) : list node := walk_queue [n].

(** [strip_dots] *)
Definition strip_dots (pkg : string) : result string :=
  if Str.startswith pkg "." then
    Raise (ImportError (Str.relative_import_msg pkg))
  else Ok (Str.before_dot pkg).

(** [strip_dots(stmt.module)] when [stmt.module] may be [None]:
    [None.startswith] is an [AttributeError]. *)
Definition strip_dots_opt (pkg : option string) : result string :=
  match pkg with
  | Some p => strip_dots p
  | None => Raise (AttributeError "'NoneType' object has no attribute 'startswith'")
  end.

(** [stmt.module or '.'] *)
Definition module_or_dot (module : option string) : string :=
  match module with
  | Some m => if Str.truthy m then m else "."
  | None => "."
  end.

(** [get_stmt_imports] *)
Definition get_stmt_imports (stmt : node) : result (list string) :=
  match node_kind stmt with
  | Import names =>
      for_each (fun imports a => let* x := strip_dots a in Ok (imports ++ [x])%list)
               names []
  | ImportFrom module level =>
      if negb (level =? 0) then
        Raise (ImportError (Str.relative_import_msg (module_or_dot module)))
      else
        let* x := strip_dots_opt module in Ok [x]
  | _ => Ok []
  end.

(** The loop shared by the analyses: [deps += get_stmt_imports(stmt)]. *)
Definition collect (stmts : list node) : result (list string) :=
  for_each (fun deps stmt => let* i := get_stmt_imports stmt in Ok (deps ++ i)%list)
           stmts [].

(** [analyze_toplevel] *)
Definition analyze_toplevel (module : node) : result (list string) :=
  collect (body module).

(** [analyze_full] *)
Definition analyze_full (module : node) : result (list string) :=
  collect (walk module).

Definition is_function_named (func_name : string) (stmt : node) : bool :=
  match node_kind stmt with
  | FunctionDef name => String.eqb name func_name
  | _ => false
  end.

(** [analyze_function]: returns the analysis of the first matching
    definition in walk order; when the loop finishes without a match the
    function falls off its end, i.e. returns Python's [None]. *)
Definition analyze_function (module : node) (func_name : string)
  : result (option (list string)) :=
  match List.find (is_function_named func_name) (walk module) with
  | Some stmt => let* deps := analyze_full stmt in Ok (Some deps)
  | None => Ok None
  end.

(** [imports += v] for a list [imports]: [v] must be iterable. *)
Definition iadd (imports : list string) (v : option (list string))
  : result (list string) :=
  match v with
  | Some l => Ok (imports ++ l)%list
  | None => Raise (TypeError "'NoneType' object is not iterable")
  end.

(** The scope selector of the command line ([--toplevel], [--function]). *)
Inductive scope : Type :=
| Toplevel
| Function (func_name : string)
| Full.

(** One iteration of the [for s in args.source] loop of [__main__],
    after [ast.parse]. *)
Definition scan_source (sc : scope) (imports : list string) (code : node)
  : result (list string) :=
  match sc with
  | Toplevel => let* l := analyze_toplevel code in iadd imports (Some l)
  | Function f => let* v := analyze_function code f in iadd imports v
  | Full => let* l := analyze_full code in iadd imports (Some l)
  end.

(** The whole loop over the parsed sources. *)
Definition scan_sources (sc : scope) (codes : list node) : result (list string) :=
  for_each (scan_source sc) codes [].

(** The statements a scope hands to [get_stmt_imports]. *)
Definition visited (sc : scope) (code : node) : list node :=
  match sc with
  | Toplevel => body code
  | Function f =>
      match List.find (is_function_named f) (walk code) with
      | Some stmt => walk stmt
      | None => []
      end
  | Full => walk code
  end.

(** What [ast.parse] guarantees about a from-import: the module is
    absent only in a relative import ([from . import x]). *)
Definition parsed_kind (k : kind) : bool :=
  match k with
  | ImportFrom None level => negb (level =? 0)
  | _ => true
  end.

Definition is_relative_from (n : node) : bool :=
  match node_kind n with
  | ImportFrom _ level => 0 <? level
  | _ => false
  end.

(** The tree is one [ast.parse] can return. *)
Definition parsed (code : node) : bool :=
  forallb (fun n => parsed_kind (node_kind n)) (walk code).

(** [x] is [n] or lies below it. *)
Inductive subnode (x : node) : node → Prop :=
| subnode_here : subnode x x
| subnode_below k cs c : In c cs → subnode x c → subnode x (Node k cs).

(** A sample unit ([Other] stands for the [alias] and [arguments]
    nodes):

    import os.path, sys
    def f():
        from a.b import x
        from .. import y *)
Definition sample_unit : node :=
  Node Module
    [Node (Import ["os.path"; "sys"]) [Node Other []; Node Other []];
     Node (FunctionDef "f")
       [Node Other [];
        Node (ImportFrom (Some "a.b") 0) [Node Other []];
        Node (ImportFrom None 2) [Node Other []]]].

End Scanner.


(** ** The package resolver (poncho_package_analyze) *)

Module Resolver.
Import Py.

(** The two result sets [conda_pkgs] and [pip_pkgs], which the source
    passes around and mutates with [.add]. *)
Record pkgs : Type := Pkgs { conda_pkgs : gset string; pip_pkgs : gset string }.

Definition no_pkgs : pkgs := Pkgs ∅ ∅.

(** First [a] of [env] with [a.startswith(pkg + '=')]. *)
Definition first_match (env : list string) (pkg : string) : option string :=
  List.find (fun a => Str.startswith a (pkg ++ "=")) env.

(** [choose_dep] *)
Definition choose_dep (conda_env pip_env : list string) (st : pkgs)
    (pkg : string) (required : bool) : result pkgs :=
  match first_match conda_env pkg with
  | Some a => Ok (Pkgs ({[a]} ∪ conda_pkgs st) (pip_pkgs st))
  | None =>
      match first_match pip_env pkg with
      | Some a => Ok (Pkgs (conda_pkgs st) ({[a]} ∪ pip_pkgs st))
      | None =>
          if required then Raise (ImportError (Str.no_match_msg pkg))
          else Ok st
      end
  end.

Section Interpreter.
(** The reference environment the resolver runs in:
    [sys.builtin_module_names], the global [PKG_MAP] filled by
    [scan_pkgs], and the outcome of
    [importlib.import_module(pkg).__file__]. *)
Variable builtin_module_names : list string.
Variable PKG_MAP : gmap string string.
Variable module_file : string → result (option string).

(** [PKG_MAP.get(file, pkg)]; [None] is never a key. *)
Definition pkg_map_get (file : option string) (pkg : string) : string :=
  match file with
  | Some f => default pkg (PKG_MAP !! f)
  | None => pkg
  end.

(** [search_pkg] *)
Definition search_pkg (overrides : gmap string string)
    (conda_env pip_env : list string) (st : pkgs) (pkg : string)
  : result pkgs :=
  if bool_decide (pkg ∈ builtin_module_names) then Ok st
  else
    match overrides !! pkg with
    | Some name => choose_dep conda_env pip_env st name true
    | None =>
        match choose_dep conda_env pip_env st pkg true with
        | Ok st' => Ok st'
        | Raise (ImportError _) =>
            let* file := module_file pkg in
            choose_dep conda_env pip_env st (pkg_map_get file pkg) true
        | Raise e => Raise e
        end
    end.
End Interpreter.

(** A reference environment used in the examples: [yaml] is both the
    name of an installed conda package and a module whose file the
    index attributes to [libyaml], while the user maps it to
    [pyyaml]. *)
Definition sample_builtin : list string := ["sys"; "builtins"; "time"].
Definition sample_conda_env : list string :=
  ["python=3.9.1=hdb3f193_2"; "yaml=0.2.5=h7b6447c_0"; "libyaml=0.2=0"].
Definition sample_pip_env : list string := ["pyyaml==5.4"; "requests==2.25.1"].
Definition sample_overrides : gmap string string := {[ "yaml" := "pyyaml" ]}.
Definition sample_pkg_map : gmap string string :=
  {[ "/env/lib/python3.9/site-packages/yaml/__init__.py" := "libyaml" ]}.
Definition sample_module_file (pkg : string) : result (option string) :=
  Ok (Some "/env/lib/python3.9/site-packages/yaml/__init__.py").

(** [a] is the first constraint of [env] that starts with [name=]. *)
Definition first_named (env : list string) (name a : string) : Prop :=
  ∃ l1 l2, env = (l1 ++ a :: l2)%list
           ∧ Str.startswith a (name ++ "=") = true
           ∧ Forall (fun b => Str.startswith b (name ++ "=") = false) l1.

(** No constraint of [env] starts with [name=]. *)
Definition none_named (env : list string) (name : string) : Prop :=
  Forall (fun b => Str.startswith b (name ++ "=") = false) env.

(** Listings without a package named [yaml], and an interpreter that
    finds a [yaml.py] no installed package owns first on its module
    search path. *)
Definition sample_conda_env_no_yaml : list string :=
  ["python=3.9.1=hdb3f193_2"; "libyaml=0.2=0"].
Definition sample_local_module_file (pkg : string) : result (option string) :=
  Ok (Some "/home/user/project/yaml.py").

End Resolver.

(** ** The specification document read by poncho_package_create *)

Module Spec.

Record conda_section : Type :=
  { channels : option (list string); packages : option (list string) }.

Record git_entry : Type :=
  { remote : option string; ref : option string }.

Record http_entry : Type :=
  { url : option string; type : option string; compression : option string }.

(** The JSON object of the spec file; an absent key is [None].  The
    [git] and [http] objects keep the order in which their entries are
    declared, as Python dictionaries do. *)
Record poncho_spec : Type :=
  { conda : option conda_section;
    pip : option (list string);
    git : option (list (string * git_entry));
    http : option (list (string * http_entry)) }.

End Spec.

(** ** The spec synthesizer ([create_conda_spec]) *)

Module Synth.
Import Py Spec.

Definition is_version_char (c : ascii) : bool :=
  (Ascii.eqb c "!" || Ascii.eqb c "~" || Ascii.eqb c "=" ||
   Ascii.eqb c "<" || Ascii.eqb c ">")%bool%char.

Definition newline : ascii := ascii_of_nat 10.

(** Can [.*$] match the whole of [s] but an optional final newline?
    ([.] does not match a newline; [$] matches at the end and just
    before a newline that ends the string.) *)
Fixpoint dot_star_eol (s : string) : bool :=
  match s with
  | EmptyString => true
  | String c rest =>
      if Ascii.eqb c newline
      then match rest with EmptyString => true | _ => false end
      else dot_star_eol rest
  end.

Fixpoint ends_with_newline (s : string) : bool :=
  match s with
  | EmptyString => false
  | String c EmptyString => Ascii.eqb c newline
  | String _ rest => ends_with_newline rest
  end.

(** [re.sub("[!~=<>].*$", "", dep)]: the leftmost match is cut out. *)
Fixpoint only_name (dep : string) : string :=
  match dep with
  | EmptyString => EmptyString
  | String c rest =>
      if (is_version_char c && dot_star_eol rest)%bool then
        if ends_with_newline rest then String newline EmptyString
        else EmptyString
      else String c (only_name rest)
  end.

(** The dictionary [create_conda_spec] returns.  The last element of
    the source's [dependencies] list, [{'pip': [...]}], is the field
    [pip]; the strings before it are [dependencies]. *)
Record conda_spec : Type :=
  { channels : list string;
    dependencies : list string;
    pip : list string;
    name : string;
    pip_local : gmap string string }.

(** One round of
      [if only_name in local_pip_pkgs:
           local_reqs.add(only_name); deps.remove(dep)]. *)
Definition reclassify (local_pip_pkgs : gmap string string)
    (st : gset string * gset string) (dep : string)
  : gset string * gset string :=
  let '(deps, local_reqs) := st in
  if bool_decide (only_name dep ∈ dom local_pip_pkgs)
  then (deps ∖ {[dep]}, {[only_name dep]} ∪ local_reqs)
  else (deps, local_reqs).

(** [for dep in list(deps): ...] *)
Definition reclassify_all (local_pip_pkgs : gmap string string)
    (deps local_reqs : gset string) : gset string * gset string :=
  foldl (reclassify local_pip_pkgs) (deps, local_reqs) (elements deps).

(** [create_conda_spec].  Without a [conda] section the field
    [dependencies] is still the [set()] it was initialised with, and
    [.append] on it is an [AttributeError]. *)
Definition create_conda_spec (poncho_spec : Spec.poncho_spec)
    (local_pip_pkgs : gmap string string) : result conda_spec :=
  let pip_pkgs0 : gset string := list_to_set (default [] (Spec.pip poncho_spec)) in
  match Spec.conda poncho_spec with
  | Some c =>
      let deps0 : gset string := list_to_set (default [] (Spec.packages c)) in
      let '(deps, local_reqs1) := reclassify_all local_pip_pkgs deps0 ∅ in
      let '(pip_pkgs, local_reqs) :=
        reclassify_all local_pip_pkgs pip_pkgs0 local_reqs1 in
      Ok {| channels := default ["conda-forge"; "defaults"] (Spec.channels c);
            dependencies := elements deps;
            pip := elements pip_pkgs;
            name := "base";
            pip_local :=
              set_to_map (fun n => (n, default "" (local_pip_pkgs !! n)))
                         local_reqs |}
  | None =>
      Raise (AttributeError "'set' object has no attribute 'append'")
  end.

(** The constraints a spec declares, system-channel and pip-only. *)
Definition declared (poncho_spec : Spec.poncho_spec) : list string :=
  (match Spec.conda poncho_spec with
   | Some c => default [] (Spec.packages c)
   | None => []
   end ++ default [] (Spec.pip poncho_spec))%list.

Definition sample_spec : Spec.poncho_spec :=
  {| Spec.conda := Some {| Spec.channels := None;
                           Spec.packages := Some ["python=3.9"; "mine>=0.1"] |};
     Spec.pip := Some ["requests"; "mine"];
     Spec.git := None;
     Spec.http := None |}.

Definition sample_editable : gmap string string :=
  {[ "mine" := "/src/mine" ]}.

End Synth.

(** ** The external data fetcher ([git_data], [http_data]) *)

Module Fetcher.
Import Py Spec.

(** The file system below the environment root, and the log of the
    subprocesses started so far. *)
Inductive entry : Type :=
| File (content : string)
| Dir.

Record world : Type :=
  World { files : gmap string entry; calls : list (list string) }.

Definition exists_path (w : world) (p : string) : bool :=
  match files w !! p with Some _ => true | None => false end.

Definition is_dir (w : world) (p : string) : bool :=
  match files w !! p with Some Dir => true | _ => false end.

Fixpoint has_slash (s : string) : bool :=
  match s with
  | EmptyString => false
  | String c rest => (Ascii.eqb c "/"%char || has_slash rest)%bool
  end.

(** The text before the last slash. *)
Fixpoint dirname (s : string) : string :=
  match s with
  | EmptyString => EmptyString
  | String c rest => if has_slash rest then String c (dirname rest) else EmptyString
  end.

(** [s] without a final [".gz"]. *)
Fixpoint remove_gz (s : string) : option string :=
  match s with
  | EmptyString => None
  | String c rest =>
      if String.eqb s ".gz" then Some EmptyString
      else String c <$> remove_gz rest
  end.

Definition put (p : string) (e : entry) (w : world) : world :=
  World (<[p := e]> (files w)) (calls w).

(** Files unpacked or checked out below [dir]. *)
Definition place (dir : string) (members : list (string * string))
    (fs : gmap string entry) : gmap string entry :=
  foldl (fun fs m => <[dir ++ "/" ++ m.1 := File m.2]> fs) fs members.

Section Tools.
(** What the collaborators deliver: the body [curl] obtains for a
    URL, the tree [git clone] checks out, the members [tar] finds in
    an archive (with or without [-z]) and what [gzip -d] decompresses
    to; [None] is a failure of the tool. *)
Variable served : string → option string.
Variable repos : string → option (list (string * string)).
Variable tar_members : bool → string → option (list (string * string)).
Variable gunzip : string → option string.

(** The file-system effect of the five command lines the fetcher
    starts; [None] is a non-zero exit status. *)
Definition tool (argv : list string) (fs : gmap string entry)
  : option (gmap string entry) :=
  match argv with
  | ["curl"; u; "--output"; out] =>
      body ← served u;
      match fs !! dirname out, fs !! out with
      | Some Dir, Some Dir => None
      | Some Dir, _ => Some (<[out := File body]> fs)
      | _, _ => None
      end
  | ["git"; "clone"; repo; path] =>
      tree ← repos repo;
      match fs !! dirname path, fs !! path with
      | Some Dir, None => Some (place path tree (<[path := Dir]> fs))
      | _, _ => None
      end
  | ["tar"; flag; archive; "-C"; dir] =>
      z ← (if String.eqb flag "-xzf" then Some true
           else if String.eqb flag "-xf" then Some false else None);
      match fs !! archive, fs !! dir with
      | Some (File c), Some Dir => members ← tar_members z c; Some (place dir members fs)
      | _, _ => None
      end
  | ["gzip"; "-d"; gz] =>
      out ← remove_gz gz;
      match fs !! gz, fs !! out with
      | Some (File c), None => d ← gunzip c; Some (<[out := File d]> (delete gz fs))
      | _, _ => None
      end
  | _ => None
  end.

(** [subprocess.check_call(argv)] *)
Definition check_call (argv : list string) (w : world) : result world :=
  match tool argv (files w) with
  | Some fs => Ok (World fs (calls w ++ [argv]))
  | None => Raise (CalledProcessError argv)
  end.

(** [os.mkdir(path)] *)
Definition os_mkdir (path : string) (w : world) : result world :=
  if exists_path w path then Raise (FileExistsError path)
  else if is_dir w (dirname path) then Ok (put path Dir w)
  else Raise (NotADirectoryError (dirname path)).

(** [with open(path, 'a') as f: f.write(text)] *)
Definition append_to (path text : string) (w : world) : result world :=
  if is_dir w (dirname path) then
    match files w !! path with
    | Some Dir => Raise (IsADirectoryError path)
    | Some (File c) => Ok (put path (File (c ++ text)) w)
    | None => Ok (put path (File text) w)
    end
  else Raise (NotADirectoryError (dirname path)).

(** ['export {}=$1/{}\n'.format(name, name)] *)
Definition hook_line (name : string) : string :=
  "export " ++ name ++ "=$1/" ++ name ++ String (ascii_of_nat 10) EmptyString.

(** The tail both fetchers share: create [poncho/] when it does not
    exist, then append the line to [poncho/set_env]. *)
Definition add_hook (out_dir name : string) (w : world) : result world :=
  let* w1 := (if negb (exists_path w (out_dir ++ "/poncho"))
              then os_mkdir (out_dir ++ "/poncho") w else Ok w) in
  append_to (out_dir ++ "/poncho/set_env") (hook_line name) w1.

(** The body of the loop of [git_data].  [ref] is read and not used. *)
Definition git_entry_step (out_dir : string) (w : world)
    (e : string * git_entry) : result world :=
  let '(git_dir, g) := e in
  match remote g with
  | Some git_repo =>
      if Str.truthy git_repo then
        let path := out_dir ++ "/" ++ git_dir in
        let* w1 := check_call ["git"; "clone"; git_repo; path] w in
        add_hook out_dir git_dir w1
      else Ok w
  | None => Ok w
  end.

(** [git_data] *)
Definition git_data (spec : poncho_spec) (out_dir : string) (w : world)
  : result world :=
  match git spec with
  | Some entries => for_each (git_entry_step out_dir) entries w
  | None => Ok w
  end.

Definition is_str (o : option string) (s : string) : bool :=
  match o with Some x => String.eqb x s | None => false end.

(** The body of the loop of [http_data]. *)
Definition http_entry_step (out_dir : string) (w : world)
    (e : string * http_entry) : result world :=
  let '(filename, h) := e in
  match url h with
  | Some u =>
      if Str.truthy u then
        let path := out_dir ++ "/" ++ filename in
        let* w1 :=
          (if (is_str (type h) "tar" && is_str (compression h) "gzip")%bool then
             let tgz := path ++ ".tar.gz" in
             let* w1 := check_call ["curl"; u; "--output"; tgz] w in
             let* w2 := os_mkdir path w1 in
             check_call ["tar"; "-xzf"; tgz; "-C"; path] w2
           else if is_str (type h) "tar" then
             let tar := path ++ ".tar" in
             let* w1 := check_call ["curl"; u; "--output"; tar] w in
             let* w2 := os_mkdir path w1 in
             check_call ["tar"; "-xf"; tar; "-C"; path] w2
           else if is_str (compression h) "gzip" then
             let gz := path ++ ".gz" in
             let* w1 := check_call ["curl"; u; "--output"; gz] w in
             check_call ["gzip"; "-d"; gz] w1
           else
             check_call ["curl"; u; "--output"; path] w) in
        add_hook out_dir filename w1
      else Ok w
  | None => Ok w
  end.

(** [http_data] *)
Definition http_data (spec : poncho_spec) (out_dir : string) (w : world)
  : result world :=
  match http spec with
  | Some entries => for_each (http_entry_step out_dir) entries w
  | None => Ok w
  end.

End Tools.

(** A sample: one tar+gzip entry, a host that serves it, and an
    environment root that is an empty directory. *)
Definition sample_http_entry : http_entry :=
  {| url := Some "http://host/data.tgz"; type := Some "tar";
     compression := Some "gzip" |}.

Definition sample_http_spec : poncho_spec :=
  {| conda := None; pip := None; git := None;
     http := Some [("data", sample_http_entry)] |}.

Definition sample_served (u : string) : option string :=
  if String.eqb u "http://host/data.tgz" then Some "TGZ" else None.
Definition sample_repos (r : string) : option (list (string * string)) := None.
Definition sample_tar_members (z : bool) (c : string)
  : option (list (string * string)) :=
  if (z && String.eqb c "TGZ")%bool then Some [("a.txt", "hello")] else None.
Definition sample_gunzip (c : string) : option string := None.

Definition sample_world : world := World {[ "/env" := Dir ]} [].

End Fetcher.

(** ** The runner (poncho_package_run), one invocation *)

Module Runner.

(** The archive, as far as the runner depends on it: whether
    [tar -xf] and the [conda-unpack] it ships succeed. *)
Record archive : Type :=
  { tar_ok : bool; conda_unpack_ok : bool }.

(** The target directory: is the tree of the archive completely in
    place, has it been relocated, and does
    [.poncho_package_run_expanded] exist. *)
Record target : Type :=
  Target { unpacked : bool; relocated : bool; marker : bool }.

Definition fresh : target := Target false false false.

(** The call sites of [errmsg]. *)
Inductive message : Type :=
| NoEnvironment
| NoCommand
| IgnoringUnpackTo
| UnpackToIsFile
| CouldNotUncompress
| CouldNotRelocate
| CouldNotAcquireLock
| CouldNotUntar
| CouldNotActivate.

Inductive event : Type :=
| Errmsg (m : message)
| Usage
| HelpEnvCreation
| MkTempDir (dir : string)
| MkdirP (dir : string)
| WriteScript (script : string)
| Flock (dir wait : string)
| TarX (archive dir : string) (ok : bool)
| CondaUnpack (dir : string) (ok : bool)
| WriteMarker (dir : string)
| UnsetPythonpath
| SourceActivate (dir : string) (e : gmap string string)
| SourceSetEnv (dir : string)
| Exec (argv : list string) (e : gmap string string)
| RemoveTree (dir : string)
| RemoveFile (file : string).

(** *** The script run under the lock ([UNTAR_SCRIPT]) *)

Definition untar_script (a : archive) (ENV_NAME UNPACK_TO : string)
    (t : target) : list event * target * Z :=
  if negb (marker t) then
    if negb (tar_ok a) then
      ([TarX ENV_NAME UNPACK_TO false; Errmsg CouldNotUncompress],
       Target false false (marker t), 1)
    else if negb (conda_unpack_ok a) then
      ([TarX ENV_NAME UNPACK_TO true; CondaUnpack UNPACK_TO false;
        Errmsg CouldNotRelocate],
       Target true false (marker t), 1)
    else
      ([TarX ENV_NAME UNPACK_TO true; CondaUnpack UNPACK_TO true;
        WriteMarker UNPACK_TO],
       Target true true true, 0)
  else ([], t, 0).

(** *** [parse_arguments] *)

Record options : Type :=
  Options { UNPACK_TO : string; ENV_NAME : string; LOCK_WAIT : string;
            DEBUG : bool }.

Definition initial_options : options := Options "" "" "300" false.

Definition is_one_of (a : string) (l : list string) : bool :=
  existsb (String.eqb a) l.

(** The [while]/[case] loop.  [inl] is an [exit] inside the loop, [inr]
    the options and the arguments left when the loop ends.  A [shift]
    with nothing left to shift fails and changes nothing, and [$1] is
    then empty. *)
Fixpoint parse_loop (o : options) (args : list string)
  : list event * Z + options * list string :=
  match args with
  | [] => inr (o, [])
  | a :: rest =>
      if is_one_of a ["-h"; "--help"] then inl ([Usage], 0)
      else if String.prefix "--help-env" a then inl ([HelpEnvCreation], 0)
      else if is_one_of a ["-u"; "--unpack-to"] then
        match rest with
        | [] => inr (Options "" (ENV_NAME o) (LOCK_WAIT o) (DEBUG o), [])
        | v :: rest' =>
            parse_loop (Options v (ENV_NAME o) (LOCK_WAIT o) (DEBUG o)) rest'
        end
      else if is_one_of a ["-d"; "--debug"] then
        parse_loop (Options (UNPACK_TO o) (ENV_NAME o) (LOCK_WAIT o) true) rest
      else if is_one_of a ["-e"; "--environment"] then
        match rest with
        | [] => inr (Options (UNPACK_TO o) "" (LOCK_WAIT o) (DEBUG o), [])
        | v :: rest' =>
            parse_loop (Options (UNPACK_TO o) v (LOCK_WAIT o) (DEBUG o)) rest'
        end
      else if is_one_of a ["-w"; "--wait-for-lock"] then
        match rest with
        | [] => inr (Options (UNPACK_TO o) (ENV_NAME o) "" (DEBUG o), [])
        | v :: rest' =>
            parse_loop (Options (UNPACK_TO o) (ENV_NAME o) v (DEBUG o)) rest'
        end
      else if String.eqb a "--" then inr (o, rest)
      else inr (o, a :: rest)
  end.

(** [parse_arguments]: an exit, or the options and the function's
    return status, [arg_counsumed] modulo 256. *)
Definition parse_arguments (args : list string)
  : list event * Z + options * nat :=
  match parse_loop initial_options args with
  | inl e => inl e
  | inr (o, rest) =>
      if String.eqb (ENV_NAME o) "" then inl ([Errmsg NoEnvironment; Usage], 1)
      else if (List.length rest <? 1)%nat then inl ([Errmsg NoCommand; Usage], 1)
      else inr (o, ((List.length args - List.length rest) mod 256)%nat)
  end.

(** *** The machine the runner runs on *)

Inductive lock_result : Type :=
| Acquired
| TimedOut
| FlockError (code : Z).

(** What one invocation observes of its host: its process id, the tests
    [-d], [-f] and [-e .../poncho/set_env], the names [mktemp] and
    [realpath] return, how [flock] ends, the target directory as it is
    when the lock is held, the archive, the effect of sourcing
    [bin/activate] and [poncho/set_env] on the environment variables,
    and the exit status of the command. *)
Record host : Type :=
  { pid : string;
    dir_exists : string → bool;
    file_exists : string → bool;
    mktemp_d : string;
    mktemp_script : string;
    realpath : string → string;
    flock : lock_result;
    found : target;
    packed : archive;
    activate : string → gmap string string → Z * gmap string string;
    hooks_exist : string → bool;
    set_env : string → gmap string string → gmap string string;
    command : list string → gmap string string → Z }.

Record outcome : Type :=
  Outcome { trace : list event; status : Z }.

(** The [EXIT] trap. *)
Definition cleanup (is_tmp : bool) (unpack_to : string) (script : option string)
  : list event :=
  ((if is_tmp then [RemoveTree unpack_to] else []) ++
   match script with Some s => [RemoveFile s] | None => [] end)%list.

(** The status of the [flock] command line and what ran under it. *)
Definition locked_unpack (h : host) (env_name unpack_to wait : string)
  : list event * Z :=
  match flock h with
  | TimedOut => ([Flock unpack_to wait], 222)
  | FlockError c => ([Flock unpack_to wait], c)
  | Acquired =>
      let '(evs, _, st) := untar_script (packed h) env_name unpack_to (found h) in
      (Flock unpack_to wait :: evs, st)
  end.

(** *** The script from [parse_arguments "$@"] to its last [exit] *)

Definition run (h : host) (inherited : gmap string string)
    (args : list string) : outcome :=
  let env0 := <["ORIGINAL_PID" := pid h]> inherited in
  match parse_arguments args with
  | inl (evs, code) => Outcome (evs ++ cleanup false "" None) code
  | inr (o, arg_consumed) =>
      let env1 := if DEBUG o then <["PONCHO_PACKAGE_RUN_DEBUG" := "yes"]> env0
                  else env0 in
      let cmd := drop arg_consumed args in
      let env_is_dir := dir_exists h (ENV_NAME o) in
      let ev1 := if (env_is_dir && negb (String.eqb (UNPACK_TO o) ""))%bool
                 then [Errmsg IgnoringUnpackTo] else [] in
      let unpack1 := if env_is_dir then ENV_NAME o else UNPACK_TO o in
      let is_tmp := String.eqb unpack1 "" in
      let ev2 := if is_tmp then [MkTempDir (mktemp_d h)] else [] in
      let unpack_to := realpath h (if is_tmp then mktemp_d h else unpack1) in
      if file_exists h unpack_to then
        Outcome (ev1 ++ ev2 ++ [Errmsg UnpackToIsFile]
                 ++ cleanup is_tmp unpack_to None) 1
      else
        let script := mktemp_script h in
        let ev3 := [MkdirP unpack_to; WriteScript script] in
        let bye := cleanup is_tmp unpack_to (Some script) in
        let '(ev4, lock_status) :=
          if env_is_dir then ([], 0)
          else locked_unpack h (ENV_NAME o) unpack_to (LOCK_WAIT o) in
        if negb (lock_status =? 0) then
          Outcome (ev1 ++ ev2 ++ ev3 ++ ev4 ++
                   [Errmsg (if lock_status =? 222 then CouldNotAcquireLock
                            else CouldNotUntar)] ++ bye) 1
        else
          let env2 := delete "PYTHONPATH" env1 in
          let '(activated, env3) := activate h unpack_to env2 in
          let ev5 := [UnsetPythonpath; SourceActivate unpack_to env2] in
          if negb (activated =? 0) then
            Outcome (ev1 ++ ev2 ++ ev3 ++ ev4 ++ ev5 ++
                     [Errmsg CouldNotActivate] ++ bye) 1
          else
            let hooks := hooks_exist h unpack_to in
            let env4 := if hooks then set_env h unpack_to env3 else env3 in
            let ev6 := if hooks then [SourceSetEnv unpack_to] else [] in
            Outcome (ev1 ++ ev2 ++ ev3 ++ ev4 ++ ev5 ++ ev6 ++
                     [Exec cmd env4] ++ bye)
                    (command h cmd env4)
  end%list.

(** *** Failure classes *)

Inductive failure : Type :=
| BadArguments
| LockTimeout
| ExtractionFailure
| RelocationFailure
| ActivationFailure.

Definition class_of (m : message) : option failure :=
  match m with
  | NoEnvironment | NoCommand | UnpackToIsFile => Some BadArguments
  | CouldNotAcquireLock => Some LockTimeout
  | CouldNotUncompress | CouldNotUntar => Some ExtractionFailure
  | CouldNotRelocate => Some RelocationFailure
  | CouldNotActivate => Some ActivationFailure
  | IgnoringUnpackTo => None
  end.

(** The class of the first fatal message of a trace. *)
Fixpoint failure_of (tr : list event) : option failure :=
  match tr with
  | [] => None
  | Errmsg m :: rest =>
      match class_of m with
      | Some c => Some c
      | None => failure_of rest
      end
  | _ :: rest => failure_of rest
  end.

Definition is_exec (e : event) : bool :=
  match e with Exec _ _ => true | _ => false end.

Definition executed (tr : list event) : bool := existsb is_exec tr.

(** [x] occurs in [tr] and [y] occurs later. *)
Definition before (x y : event) (tr : list event) : Prop :=
  ∃ l1 l2 l3, tr = (l1 ++ x :: l2 ++ y :: l3)%list.

(** *** Sample hosts *)

Definition valid_archive : archive := {| tar_ok := true; conda_unpack_ok := true |}.

(** A host on which the environment is an archive file; the lock
    result, the archive and the status of [bin/activate] vary. *)
Definition sample_host (l : lock_result) (a : archive) (activated : Z) : host :=
  {| pid := "4242";
     dir_exists := fun _ => false;
     file_exists := fun p => String.eqb p "/etc/passwd";
     mktemp_d := "/tmp/tmp.k3Xq";
     mktemp_script := "poncho_package_run.a1B2c3";
     realpath := fun p => p;
     flock := l;
     found := fresh;
     packed := a;
     activate := fun dir e => (activated, <["CONDA_PREFIX" := dir]> e);
     hooks_exist := fun _ => true;
     set_env := fun dir e => <["data" := (dir ++ "/data")%string]> e;
     command := fun argv e => match e !! "PYTHONPATH" with
                              | Some _ => 3
                              | None => 0
                              end |}.

Definition sample_args : list string :=
  ["-e"; "env.tar.gz"; "-u"; "/scratch/env"; "--"; "python"; "-c"; "import requests"].

Definition sample_inherited : gmap string string :=
  {[ "PYTHONPATH" := "/home/user/lib"; "HOME" := "/home/user" ]}.

(** The variables the command of the sample run starts with. *)
(** The variables [bin/activate] and the command of the sample run
    start with. *)
Definition sample_activation_env : gmap string string :=
  delete "PYTHONPATH" (<["ORIGINAL_PID" := "4242"]> sample_inherited).

Definition sample_command_env : gmap string string :=
  <["data" := "/scratch/env/data"]>
    (<["CONDA_PREFIX" := "/scratch/env"]> sample_activation_env).

End Runner.

(** ** The runner, many invocations on one target directory *)

Module Shared.
Import Runner.

(** Where an invocation is inside [UNTAR_SCRIPT]: before the test for
    the marker, before [tar], before [conda-unpack], before the marker
    is written, or at its [exit] ([None] is [exit 0]). *)
Inductive script_pc : Type :=
| AtCheck
| AtTar
| AtCondaUnpack
| AtWriteMarker
| AtExit (failed : option failure).

(** Where an invocation is in the runner, from the [flock] line on. *)
Inductive pc : Type :=
| AtFlock
| InScript (s : script_pc)
| AtActivate
| AtCommand
| Done (status : Z)
| Failed (c : failure).

(** The target directory, the holder of its lock, the invocations, and
    the log of the invocations that completed [tar] and
    [conda-unpack]. *)
Record system : Type :=
  System { dir : target; lock : option nat; procs : list pc;
           performers : list nat }.

(** What the scheduler and the environment decide for one step: which
    invocation moves, whether its wait for the lock expires now,
    whether [bin/activate] succeeds, and the status of its command. *)
Record choice : Type :=
  { who : nat; expires : bool; activate_ok : bool; cmd_status : Z }.

Definition move (i : nat) (p : pc) (s : system) : system :=
  System (dir s) (lock s) (<[i := p]> (procs s)) (performers s).

Definition step (a : archive) (c : choice) (s : system) : system :=
  let i := who c in
  match procs s !! i with
  | None => s
  | Some AtFlock =>
      match lock s with
      | None => System (dir s) (Some i) (<[i := InScript AtCheck]> (procs s))
                       (performers s)
      | Some _ => if expires c then move i (Failed LockTimeout) s else s
      end
  | Some (InScript AtCheck) =>
      move i (InScript (if marker (dir s) then AtExit None else AtTar)) s
  | Some (InScript AtTar) =>
      if tar_ok a then
        System (Target true false (marker (dir s))) (lock s)
               (<[i := InScript AtCondaUnpack]> (procs s)) (performers s)
      else
        System (Target false false (marker (dir s))) (lock s)
               (<[i := InScript (AtExit (Some ExtractionFailure))]> (procs s))
               (performers s)
  | Some (InScript AtCondaUnpack) =>
      if conda_unpack_ok a then
        System (Target (unpacked (dir s)) true (marker (dir s))) (lock s)
               (<[i := InScript AtWriteMarker]> (procs s))
               (performers s ++ [i])
      else move i (InScript (AtExit (Some RelocationFailure))) s
  | Some (InScript AtWriteMarker) =>
      System (Target (unpacked (dir s)) (relocated (dir s)) true) (lock s)
             (<[i := InScript (AtExit None)]> (procs s)) (performers s)
  | Some (InScript (AtExit r)) =>
      System (dir s) None
             (<[i := match r with None => AtActivate | Some f => Failed f end]>
                (procs s))
             (performers s)
  | Some AtActivate =>
      move i (if activate_ok c then AtCommand else Failed ActivationFailure) s
  | Some AtCommand => move i (Done (cmd_status c)) s
  | Some (Done _) | Some (Failed _) => s
  end.

(** [n] invocations started against a fresh target directory. *)
Definition init (n : nat) : system :=
  System fresh None (replicate n AtFlock) [].

Definition run_schedule (a : archive) (sched : list choice) (s : system)
  : system :=
  foldl (fun s c => step a c s) s sched.

Definition finished (p : pc) : bool :=
  match p with Done _ | Failed _ => true | _ => false end.

Definition all_finished (s : system) : bool := forallb finished (procs s).

(** The invocation is past the test for the marker with nothing left to
    unpack: it saw the marker or wrote it. *)
Definition passed (p : pc) : bool :=
  match p with
  | InScript (AtExit None) | AtActivate | AtCommand | Done _ => true
  | _ => false
  end.

Definition ready : target := Target true true true.

Definition valid (a : archive) : Prop :=
  tar_ok a = true ∧ conda_unpack_ok a = true.

Definition in_script (p : pc) : bool :=
  match p with InScript _ => true | _ => false end.

(** Waiting for the lock, or gone after waiting in vain. *)
Definition idle (p : pc) : bool :=
  match p with AtFlock | Failed LockTimeout => true | _ => false end.

(** What the position of the invocation inside the script tells about
    the directory. *)
Definition holder_ok (i : nat) (sp : script_pc) (s : system) : Prop :=
  match sp with
  | AtCheck => True
  | AtTar => marker (dir s) = false
  | AtCondaUnpack => marker (dir s) = false ∧ unpacked (dir s) = true
  | AtWriteMarker =>
      marker (dir s) = false ∧ unpacked (dir s) = true
      ∧ relocated (dir s) = true ∧ performers s = [i]
  | AtExit None => marker (dir s) = true
  | AtExit (Some _) => False
  end.

(** The invariant of the protocol for a valid archive. *)
Record inv (s : system) : Prop :=
  { inv_lock_held :
      ∀ i, lock s = Some i → ∃ sp, procs s !! i = Some (InScript sp);
    inv_in_script :
      ∀ i sp, procs s !! i = Some (InScript sp) →
              lock s = Some i ∧ holder_ok i sp s;
    inv_marker :
      marker (dir s) = true →
      dir s = ready ∧ List.length (performers s) = 1%nat;
    inv_no_marker :
      marker (dir s) = false →
      (∀ i p, procs s !! i = Some p → (in_script p || idle p)%bool = true)
      ∧ (lock s = None → ∀ i p, procs s !! i = Some p → p = AtFlock)
      ∧ ((∀ i, procs s !! i ≠ Some (InScript AtWriteMarker)) →
         performers s = []) }.

(** A schedule for three invocations: the second gets the lock first,
    the third gives up waiting, the first finds the marker. *)
Definition at_ (i : nat) : choice :=
  {| who := i; expires := false; activate_ok := true; cmd_status := 0 |}.

Definition sample_schedule : list choice :=
  [at_ 1; at_ 0;
   {| who := 2; expires := true; activate_ok := true; cmd_status := 0 |};
   at_ 1; at_ 1; at_ 1; at_ 1; at_ 1;
   at_ 0; at_ 0; at_ 0; at_ 1; at_ 0; at_ 1; at_ 0].

End Shared.

(** * Further definitions *)

(** ** Identifiers *)

Module Ident.

(** ['.' in s] *)
Fixpoint has_dot (s : string) : bool :=
  match s with
  | EmptyString => false
  | String c rest => (Ascii.eqb c "."%char || has_dot rest)%bool
  end.

(** A sample unit without relative imports:

    import os.path, sys
    def f():
        from a.b import x
        def g():
            import numpy.linalg *)
Definition sample_plain_unit : Scanner.node :=
  Scanner.Node Scanner.Module
    [Scanner.Node (Scanner.Import ["os.path"; "sys"])
       [Scanner.Node Scanner.Other []; Scanner.Node Scanner.Other []];
     Scanner.Node (Scanner.FunctionDef "f")
       [Scanner.Node Scanner.Other [];
        Scanner.Node (Scanner.ImportFrom (Some "a.b") 0)
          [Scanner.Node Scanner.Other []];
        Scanner.Node (Scanner.FunctionDef "g")
          [Scanner.Node Scanner.Other [];
           Scanner.Node (Scanner.Import ["numpy.linalg"])
             [Scanner.Node Scanner.Other []]]]].

(** A sample unit in which a nested [f] comes first in the source:

    def g():
        def f():
            import os
    def f():
        import sys *)
Definition sample_shadowed_unit : Scanner.node :=
  Scanner.Node Scanner.Module
    [Scanner.Node (Scanner.FunctionDef "g")
       [Scanner.Node Scanner.Other [];
        Scanner.Node (Scanner.FunctionDef "f")
          [Scanner.Node Scanner.Other [];
           Scanner.Node (Scanner.Import ["os"]) [Scanner.Node Scanner.Other []]]];
     Scanner.Node (Scanner.FunctionDef "f")
       [Scanner.Node Scanner.Other [];
        Scanner.Node (Scanner.Import ["sys"]) [Scanner.Node Scanner.Other []]]].

End Ident.


(** ** The export of the resolved environment ([export_env], [__main__]) *)

Module Exporter.
Import Py Resolver.

(** An element of the [dependencies] list of [conda env export --json]:
    a constraint string, or the dictionary [{'pip': [...]}]. *)
Inductive dep_item : Type :=
| Name (s : string)
| PipSection (pip : list string).

Definition is_name (d : dep_item) : bool :=
  match d with Name _ => true | PipSection _ => false end.

(** The loop

      for i in range(len(conda_env)):
          if isinstance(conda_env[i], dict):
              pip_env = conda_env.pop(i)['pip']

    over the indices fixed when the loop starts; [None] is the
    [IndexError] of [conda_env[i]]. *)
Fixpoint pop_pip (indices : list nat) (conda_env : list dep_item)
    (pip_env : list string) : option (list dep_item * list string) :=
  match indices with
  | [] => Some (conda_env, pip_env)
  | i :: rest =>
      match conda_env !! i with
      | None => None
      | Some (PipSection pip) => pop_pip rest (delete i conda_env) pip
      | Some (Name _) => pop_pip rest conda_env pip_env
      end
  end.

Definition split_dependencies (dependencies : list dep_item)
  : option (list dep_item * list string) :=
  pop_pip (seq 0 (List.length dependencies)) dependencies [].

(** The strings of a list of items. *)
Definition names (items : list dep_item) : list string :=
  omap (fun d => match d with Name s => Some s | PipSection _ => None end) items.

(** The JSON object [conda env export --json] prints: [channels],
    [dependencies], and the other keys ([name], [prefix]). *)
Record env_export : Type :=
  { channels : option (list string);
    dependencies : option (list dep_item);
    others : gmap string string }.

(** The dictionary [export_env] returns: the other keys of the export,
    [pip] when a pip package was resolved and [conda] when a conda
    package was. *)
Record exported : Type :=
  Exported { kept : gmap string string;
             pip : option (list string);
             conda : option (list string * list string) }.

Inductive raised : Type :=
| IndexError
| Python (e : exn).

(** [sorted(list(s))] *)
Definition sorted (s : gset string) : list string :=
  merge_sort String.le (elements s).

Definition non_empty (l : list string) : option (list string) :=
  match l with [] => None | _ => Some l end.

Section Interpreter.
Variable builtin_module_names : list string.
Variable PKG_MAP : gmap string string.
Variable module_file : string → result (option string).

(** The resolution part of [export_env]: the imports, the extra
    packages, then [python] and [pip] when present. *)
Definition resolve_all (overrides : gmap string string)
    (conda_env pip_env : list string) (imports extra : list string)
  : result pkgs :=
  let* st1 := for_each (search_pkg builtin_module_names PKG_MAP module_file
                                   overrides conda_env pip_env)
                       imports no_pkgs in
  let* st2 := for_each (fun st pkg => choose_dep conda_env pip_env st pkg true)
                       extra st1 in
  let* st3 := choose_dep conda_env pip_env st2 "python" false in
  choose_dep conda_env pip_env st3 "pip" false.

(** [export_env], with the order in which the two sets are iterated
    made explicit. *)
Definition export_env_in (imports extra : list string)
    (overrides : gmap string string) (env : env_export)
  : raised + exported :=
  match split_dependencies (default [] (dependencies env)) with
  | None => inl IndexError
  | Some (conda_env, pip_env) =>
      match resolve_all overrides (names conda_env) pip_env imports extra with
      | Raise e => inl (Python e)
      | Ok st =>
          inr (Exported (others env)
                        (non_empty (sorted (pip_pkgs st)))
                        (match sorted (conda_pkgs st) with
                         | [] => None
                         | l => Some (default [] (channels env), l)
                         end))
      end
  end.

(** [export_env]: [imports = set(imports)], [extra = set(extra)]. *)
Definition export_env (overrides : gmap string string)
    (imports extra : list string) (env : env_export) : raised + exported :=
  export_env_in (elements (list_to_set imports : gset string))
                (elements (list_to_set extra : gset string))
                overrides env.
End Interpreter.

(** *** Adding results *)

(** The packages of [r] added to those of [st]. *)
Definition merge (r st : pkgs) : pkgs :=
  Pkgs (conda_pkgs r ∪ conda_pkgs st) (pip_pkgs r ∪ pip_pkgs st).

(** A result that only adds to [st]. *)
Definition framed (m0 : result pkgs) (st : pkgs) : result pkgs :=
  match m0 with Ok r => Ok (merge r st) | Raise e => Raise e end.

(** The resolved packages are among the installed ones. *)
Definition within (conda_env pip_env : list string) (st : pkgs) : Prop :=
  (∀ a, a ∈ conda_pkgs st → a ∈ conda_env) ∧ (∀ a, a ∈ pip_pkgs st → a ∈ pip_env).

(** *** [--pkg-mapping IMPORT=NAME] *)

(** [s.split(sep)] for a one-character separator. *)
Fixpoint split_on (sep : ascii) (s : string) : list string :=
  match s with
  | EmptyString => [EmptyString]
  | String c rest =>
      if Ascii.eqb c sep then EmptyString :: split_on sep rest
      else match split_on sep rest with
           | p :: ps => String c p :: ps
           | [] => [String c EmptyString]
           end
  end.

(** [(i, n) = a.split('=')]; [None] is the [ValueError] of the
    unpacking. *)
Definition parse_mapping (a : string) : option (string * string) :=
  match split_on "=" a with
  | [i; n] => Some (i, n)
  | _ => None
  end.

(** The loop [for a in args.pkg_mapping: ...; overrides[i] = n]. *)
Fixpoint parse_overrides (mappings : list string) (overrides : gmap string string)
  : option (gmap string string) :=
  match mappings with
  | [] => Some overrides
  | a :: rest =>
      match parse_mapping a with
      | Some (i, n) => parse_overrides rest (<[i := n]> overrides)
      | None => None
      end
  end.

(** ['='.join(parts)] *)
Fixpoint join_eq (parts : list string) : string :=
  match parts with
  | [] => EmptyString
  | [p] => p
  | p :: ps => p ++ "=" ++ join_eq ps
  end.

Fixpoint has_eq (s : string) : bool :=
  match s with
  | EmptyString => false
  | String c rest => (Ascii.eqb c "="%char || has_eq rest)%bool
  end.

(** A sample export: one conda package and the pip section at the
    end. *)
Definition sample_export : env_export :=
  {| channels := Some ["conda-forge"];
     dependencies := Some [Name "python=3.9.1=hdb3f193_2";
                           Name "yaml=0.2.5=h7b6447c_0";
                           PipSection ["pyyaml==5.4"; "requests==2.25.1"]];
     others := {[ "name" := "base" ]} |}.

End Exporter.

(** ** Constraint strings *)

Module Constraint.
Import Synth.

Fixpoint has_newline (s : string) : bool :=
  match s with
  | EmptyString => false
  | String c rest => (Ascii.eqb c newline || has_newline rest)%bool
  end.

Fixpoint has_version_char (s : string) : bool :=
  match s with
  | EmptyString => false
  | String c rest => (is_version_char c || has_version_char rest)%bool
  end.

End Constraint.

(** ** The activation hook script *)

Module Hooks.
Import Spec Fetcher.

(** [out_dir + '/poncho/set_env'] *)
Definition hook_path (out_dir : string) : string := out_dir ++ "/poncho/set_env".

(** The text of the hook script; empty when there is none. *)
Definition script_text (out_dir : string) (w : world) : string :=
  match files w !! hook_path out_dir with
  | Some (File c) => c
  | _ => EmptyString
  end.

(** A logical name that is a single path component other than
    [poncho]. *)
Definition plain_name (n : string) : bool :=
  (negb (has_slash n) && negb (String.eqb n "poncho"))%bool.

Definition has_source (o : option string) : bool :=
  match o with Some s => Str.truthy s | None => false end.

(** The names of the entries that are fetched, in declared order. *)
Definition git_fetched (entries : list (string * git_entry)) : list string :=
  fst <$> filter (fun e => has_source (remote e.2) = true) entries.

Definition http_fetched (entries : list (string * http_entry)) : list string :=
  fst <$> filter (fun e => has_source (url e.2) = true) entries.

(** The subprocesses of the git entries that are fetched. *)
Definition git_clones (out_dir : string) (entries : list (string * git_entry))
  : list (list string) :=
  omap (fun e => match remote e.2 with
                 | Some r => if Str.truthy r
                             then Some ["git"; "clone"; r; (out_dir ++ "/" ++ e.1)%string]
                             else None
                 | None => None
                 end) entries.

(** One line per name. *)
Fixpoint lines (ns : list string) : string :=
  match ns with
  | [] => EmptyString
  | n :: rest => hook_line n ++ lines rest
  end.

(** A sample with a git entry, an entry without source and a plain
    download. *)
Definition sample_git_entries : list (string * git_entry) :=
  [("tools", {| remote := Some "https://host/tools.git"; ref := Some "v1" |});
   ("later", {| remote := None; ref := None |})].

Definition sample_http_entries : list (string * http_entry) :=
  [("blob", {| url := Some "http://host/blob.gz"; type := None;
               compression := Some "gzip" |});
   ("notes", {| url := Some "http://host/notes"; type := None;
                compression := None |})].

Definition sample_git_spec : poncho_spec :=
  {| conda := None; pip := None; git := Some sample_git_entries; http := None |}.

Definition sample_blob_spec : poncho_spec :=
  {| conda := None; pip := None; git := None; http := Some sample_http_entries |}.

Definition sample_net (u : string) : option string :=
  if String.eqb u "http://host/blob.gz" then Some "GZ"
  else if String.eqb u "http://host/notes" then Some "text" else None.
Definition sample_git (r : string) : option (list (string * string)) :=
  if String.eqb r "https://host/tools.git" then Some [("README", "hi")] else None.
Definition sample_tar (z : bool) (c : string) : option (list (string * string)) := None.
Definition sample_unzip (c : string) : option string :=
  if String.eqb c "GZ" then Some "blob data" else None.

End Hooks.

(** ** The runner: what a run leaves behind and what it executes *)

Module Events.
Import Runner.

(** The steps that exist only to unpack an archive. *)
Definition is_unpack_event (e : event) : bool :=
  match e with
  | MkTempDir _ | Flock _ _ | TarX _ _ _ | CondaUnpack _ _ | WriteMarker _
  | RemoveTree _ => true
  | _ => false
  end.

(** A host on which [/opt/env] is a directory holding an unpacked
    environment. *)
Definition dir_host : host :=
  {| pid := "4242";
     dir_exists := fun p => String.eqb p "/opt/env";
     file_exists := fun _ => false;
     mktemp_d := "/tmp/tmp.k3Xq";
     mktemp_script := "poncho_package_run.a1B2c3";
     realpath := fun p => p;
     flock := TimedOut;
     found := fresh;
     packed := {| tar_ok := false; conda_unpack_ok := false |};
     activate := fun dir e => (0%Z, <["CONDA_PREFIX" := dir]> e);
     hooks_exist := fun _ => false;
     set_env := fun dir e => e;
     command := fun argv e => 0%Z |}.

Definition dir_args : list string :=
  ["-e"; "/opt/env"; "-u"; "/scratch/env"; "python"; "-V"].

(** A command line without [--unpack-to]. *)
Definition tmp_args : list string := ["-e"; "env.tar.gz"; "python"; "-V"].

(** 255 times [-d], then [--]: 256 arguments before the command. *)
Definition long_args : list string :=
  (["-e"; "env.tar.gz"] ++ replicate 253 "-d" ++ ["--"; "python"; "-V"])%list.

End Events.

(** ** The lock protocol for any archive *)

Module Protocol.
Import Runner Shared.

(** The lock is held exactly by the invocation inside the script. *)
Definition exclusive (s : system) : Prop :=
  ∀ i, lock s = Some i ↔ ∃ sp, procs s !! i = Some (InScript sp).

(** Where an invocation can be when the archive is broken. *)
Definition quiet (a : archive) (p : pc) : bool :=
  match p with
  | AtFlock => true
  | InScript AtCheck | InScript AtTar => true
  | InScript AtCondaUnpack => tar_ok a
  | InScript (AtExit (Some f)) | Failed f =>
      match f with ActivationFailure => false | _ => true end
  | _ => false
  end.

(** Nothing has been marked or relocated, and every invocation is
    where a broken archive lets it be. *)
Definition stalled (a : archive) (s : system) : Prop :=
  marker (dir s) = false
  ∧ performers s = []
  ∧ ∀ i p, procs s !! i = Some p → quiet a p = true.

Definition broken (a : archive) : bool :=
  negb (tar_ok a && conda_unpack_ok a).

(** A choice in which nobody's wait expires. *)
Definition patient (i : nat) : choice :=
  {| who := i; expires := false; activate_ok := true; cmd_status := 0%Z |}.

Definition sample_broken : archive := {| tar_ok := true; conda_unpack_ok := false |}.

End Protocol.

(** * Properties *)

(** ** The import scanner *)

Module ScannerFacts.
Import Py Scanner.

Lemma subnode_trans x y z : subnode x y → subnode y z → subnode x z.
Proof.
  intros Hxy Hyz. induction Hyz as [|k cs c Hin _ IH]; [done|].
  by eapply subnode_below.
Qed.

(** The queue visits exactly the nodes at or below its elements. *)
Lemma walk_queue_spec todo x :
  In x (walk_queue todo) ↔ ∃ r, In r todo ∧ subnode x r.
Proof.
  revert x. funelim (walk_queue todo); intros x; simp walk_queue.
  - split; [intros [] | intros (r & [] & _)].
  - rename H into IH. simpl. rewrite IH. clear IH. split.
    + intros [<- | (r & Hr & Hsub)].
      * exists n. split; [by left | constructor].
      * apply in_app_or in Hr as [Hr | Hr].
        -- exists r. split; [by right | done].
        -- exists n. split; [by left |].
           destruct n as [k cs]. by eapply subnode_below.
    + intros (r & [<- | Hr] & Hsub).
      * inversion Hsub as [|k cs c Hin Hsub' Heq]; subst; [by left |].
        right. exists c. split; [| done]. apply in_or_app. by right.
      * right. exists r. split; [| done]. apply in_or_app. by left.
Qed.

Lemma walk_spec code x : In x (walk code) ↔ subnode x code.
Proof.
  unfold walk. rewrite walk_queue_spec. split.
  - intros (r & [<- | []] & H). done.
  - intros H. exists code. split; [by left | done].
Qed.

Lemma walk_sub stmt code x : In stmt (walk code) → In x (walk stmt) → In x (walk code).
Proof. rewrite !walk_spec. intros H1 H2. by eapply subnode_trans. Qed.

Lemma body_in_walk code x : In x (body code) → In x (walk code).
Proof.
  intros H. apply walk_spec. destruct code as [k cs].
  eapply subnode_below; [exact H | constructor].
Qed.

(** Every statement a scope visits is a node of the source unit. *)
Lemma visited_in_walk sc code x : In x (visited sc code) → In x (walk code).
Proof.
  destruct sc as [|f|]; simpl; [apply body_in_walk | | done].
  destruct (find _ _) as [stmt|] eqn:Hfind; [| intros []].
  apply find_some in Hfind as [Hin _]. by apply walk_sub.
Qed.

Lemma strip_dots_error pkg e : strip_dots pkg = Raise e → ∃ msg, e = ImportError msg.
Proof. unfold strip_dots. destruct (Str.startswith _ _); [|done]. intros [= <-]. eauto. Qed.

Lemma import_names_error names acc e :
  for_each (fun imports a => let* x := strip_dots a in Ok (imports ++ [x])%list)
           names acc = Raise e →
  ∃ msg, e = ImportError msg.
Proof.
  revert acc. induction names as [|a names IH]; intros acc; simpl; [done|].
  destruct (strip_dots a) eqn:Ha; simpl.
  - apply IH.
  - intros [= <-]. by eapply strip_dots_error.
Qed.

(** On a parsed statement [get_stmt_imports] raises nothing but
    [ImportError]. *)
Lemma get_stmt_imports_error stmt e :
  parsed_kind (node_kind stmt) = true →
  get_stmt_imports stmt = Raise e → ∃ msg, e = ImportError msg.
Proof.
  unfold get_stmt_imports. destruct (node_kind stmt) as [|names|m lvl|f|]; try done.
  - intros _. apply import_names_error.
  - simpl. destruct (lvl =? 0) eqn:Hl; simpl.
    + destruct m as [m|]; [|done]. intros _. simpl.
      destruct (strip_dots m) eqn:Hm; simpl; [done|].
      intros [= <-]. by eapply strip_dots_error.
    + intros _ [= <-]. eauto.
Qed.

Lemma relative_from_raises stmt :
  is_relative_from stmt = true →
  ∃ m, get_stmt_imports stmt
       = Raise (ImportError (Str.relative_import_msg (module_or_dot m))).
Proof.
  unfold is_relative_from, get_stmt_imports.
  destruct (node_kind stmt) as [| |m lvl| |]; try done.
  intros Hl%Z.ltb_lt. exists m.
  destruct (Z.eqb_spec lvl 0) as [->|]; [lia | done].
Qed.

(** The loop of the analyses raises [ImportError] as soon as one of its
    statements is a relative from-import. *)
Lemma collect_loop_raises stmts acc stmt :
  (∀ n, In n stmts → parsed_kind (node_kind n) = true) →
  In stmt stmts → is_relative_from stmt = true →
  ∃ msg, for_each (fun deps s => let* i := get_stmt_imports s in Ok (deps ++ i)%list)
                  stmts acc = Raise (ImportError msg).
Proof.
  revert acc. induction stmts as [|s stmts IH]; intros acc Hp Hin Hrel; [done|].
  simpl. destruct (get_stmt_imports s) as [i|e] eqn:Hs; simpl.
  - destruct Hin as [-> | Hin].
    + apply relative_from_raises in Hrel as [m Hm]. congruence.
    + apply IH; [| done | done]. intros n Hn. apply Hp. by right.
  - apply get_stmt_imports_error in Hs as [msg ->]; [eauto|]. apply Hp. by left.
Qed.

Lemma collect_raises stmts stmt :
  (∀ n, In n stmts → parsed_kind (node_kind n) = true) →
  In stmt stmts → is_relative_from stmt = true →
  ∃ msg, collect stmts = Raise (ImportError msg).
Proof. apply collect_loop_raises. Qed.

Lemma parsed_in code n :
  parsed code = true → In n (walk code) → parsed_kind (node_kind n) = true.
Proof. unfold parsed. rewrite forallb_forall. auto. Qed.

(** C3.  A from-import with a relative level above zero makes
    [get_stmt_imports] raise [ImportError], whatever the level and
    whether or not a module is named; and in every scan scope, a
    source unit in which the scope visits such a statement makes the
    scan of that unit raise [ImportError]. *)
Theorem relative_from_import_raises
    (sc : scope) (code : node) (imports : list string)
    (module : option string) (level : Z) (children : list node) :
  parsed code = true →
  0 < level →
  In (Node (ImportFrom module level) children) (visited sc code) →
  get_stmt_imports (Node (ImportFrom module level) children)
    = Raise (ImportError (Str.relative_import_msg (module_or_dot module)))
  ∧ ∃ msg, scan_source sc imports code = Raise (ImportError msg).
Proof.
  intros Hparsed Hlevel Hin.
  set (stmt := Node (ImportFrom module level) children) in *.
  assert (Hrel : is_relative_from stmt = true) by by apply Z.ltb_lt.
  split.
  - unfold get_stmt_imports. simpl.
    destruct (Z.eqb_spec level 0) as [->|]; [lia | done].
  - destruct sc as [|f|]; simpl in *.
    + destruct (collect_raises (body code) stmt) as [msg Hmsg]; try done.
      { intros n Hn. eapply parsed_in; [done|]. by apply body_in_walk. }
      exists msg. unfold analyze_toplevel. by rewrite Hmsg.
    + unfold analyze_function.
      destruct (find _ _) as [fn|] eqn:Hfind; [| done].
      apply find_some in Hfind as [Hfn _].
      destruct (collect_raises (walk fn) stmt) as [msg Hmsg]; try done.
      { intros n Hn. eapply parsed_in; [done|]. by eapply walk_sub. }
      exists msg. unfold analyze_full. by rewrite Hmsg.
    + destruct (collect_raises (walk code) stmt) as [msg Hmsg]; try done.
      { intros n Hn. by eapply parsed_in. }
      exists msg. unfold analyze_full. by rewrite Hmsg.
Qed.

Lemma relative_from_import_raises_witness :
  get_stmt_imports (Node (ImportFrom None 2) [Node Other []])
    = Raise (ImportError (Str.relative_import_msg "."))
  ∧ ∃ msg, scan_source (Function "f") [] sample_unit = Raise (ImportError msg).
Proof.
  apply (relative_from_import_raises (Function "f") sample_unit [] None 2
           [Node Other []]).
  - vm_compute. reflexivity.
  - lia.
  - vm_compute. auto 10.
Defined.

(** The top-level scope does not look below the module body: the same
    unit scans without error there. *)
Example toplevel_skips_nested :
  scan_source Toplevel [] sample_unit = Ok ["os"; "sys"].
Proof. vm_compute. reflexivity. Qed.

Lemma find_none_iff {A} (f : A → bool) l :
  find f l = None ↔ ∀ x, In x l → f x = false.
Proof.
  split; [apply find_none|]. induction l as [|a l IH]; [done|].
  intros H. simpl. rewrite (H a) by (by left). apply IH. intros x Hx. apply H. by right.
Qed.

(** C4 (as the code behaves).  When no routine definition at any depth
    of the source unit has the given name, [analyze_function] returns
    [None], and the [imports += ...] of the caller raises [TypeError],
    which ends the loop over the sources: the scan does not yield an
    empty result. *)
Theorem missing_routine_is_type_error
    (code : node) (func_name : string) (imports : list string)
    (more : list node) :
  (∀ stmt, subnode stmt code → is_function_named func_name stmt = false) →
  analyze_function code func_name = Ok None
  ∧ scan_source (Function func_name) imports code
    = Raise (TypeError "'NoneType' object is not iterable")
  ∧ scan_sources (Function func_name) (code :: more)
    = Raise (TypeError "'NoneType' object is not iterable").
Proof.
  intros Hnone.
  assert (Hfind : find (is_function_named func_name) (walk code) = None).
  { apply find_none_iff. intros x Hx. apply Hnone. by apply walk_spec. }
  unfold scan_sources, scan_source, analyze_function. simpl. by rewrite Hfind.
Qed.

Lemma missing_routine_is_type_error_witness :
  analyze_function sample_unit "g" = Ok None
  ∧ scan_source (Function "g") [] sample_unit
    = Raise (TypeError "'NoneType' object is not iterable")
  ∧ scan_sources (Function "g") [sample_unit]
    = Raise (TypeError "'NoneType' object is not iterable").
Proof.
  apply (missing_routine_is_type_error sample_unit "g" [] []).
  intros stmt Hsub. apply walk_spec in Hsub.
  vm_compute in Hsub.
  repeat (destruct Hsub as [<- | Hsub]; [reflexivity|]). destruct Hsub.
Defined.

End ScannerFacts.
(** ** The package resolver *)

Module ResolverFacts.
Import Py Resolver.

(** With an override, [search_pkg] is [choose_dep] on the override's
    name. *)
Lemma search_pkg_override builtin PKG_MAP module_file
    (overrides : gmap string string) conda_env pip_env st pkg name :
  pkg ∉ builtin →
  overrides !! pkg = Some name →
  search_pkg builtin PKG_MAP module_file overrides conda_env pip_env st pkg
  = choose_dep conda_env pip_env st name true.
Proof.
  intros Hb Ho. unfold search_pkg.
  rewrite bool_decide_eq_false_2 by done. by rewrite Ho.
Qed.

(** *** The first constraint of a name *)

Lemma first_match_named env name a :
  first_named env name a → first_match env name = Some a.
Proof.
  intros (l1 & l2 & -> & Ha & Hl1). unfold first_match.
  induction Hl1 as [|b l1 Hb _ IH]; simpl.
  - by rewrite Ha.
  - by rewrite Hb.
Qed.

Lemma first_match_none env name :
  none_named env name → first_match env name = None.
Proof.
  unfold none_named, first_match.
  induction 1 as [|b l Hb _ IH]; simpl; [done|]. by rewrite Hb.
Qed.

Lemma first_match_member env name a :
  a ∈ env → Str.startswith a (name ++ "=") = true →
  is_Some (first_match env name).
Proof.
  unfold first_match. intros Hin Ha.
  induction env as [|b env IH]; [by apply elem_of_nil in Hin|]. simpl.
  destruct (Str.startswith b (name ++ "=")) eqn:Hb; [by eexists|].
  apply elem_of_cons in Hin as [-> | Hin]; [congruence | by apply IH].
Qed.

(** *** What the outcome of [search_pkg] depends on *)

(** Of the interpreter, [search_pkg] reads the file of the imported
    identifier and the index entry of that file, nothing else. *)
Lemma search_pkg_ext builtin (overrides : gmap string string)
    conda_env pip_env st pkg PKG_MAP1 module_file1 PKG_MAP2 module_file2 :
  module_file1 pkg = module_file2 pkg →
  (∀ file, module_file1 pkg = Ok file →
           pkg_map_get PKG_MAP1 file pkg = pkg_map_get PKG_MAP2 file pkg) →
  search_pkg builtin PKG_MAP1 module_file1 overrides conda_env pip_env st pkg
  = search_pkg builtin PKG_MAP2 module_file2 overrides conda_env pip_env st pkg.
Proof.
  intros Hfile Hindex. unfold search_pkg.
  destruct (bool_decide _); [done|].
  destruct (overrides !! pkg); [done|].
  destruct (choose_dep conda_env pip_env st pkg true) as [st'|[]]; try done.
  rewrite <- Hfile. destruct (module_file1 pkg) as [file|e]; [|done].
  simpl. by rewrite (Hindex file).
Qed.

(** The interpreter is not consulted for an identifier that is built
    in, has an override, or is the name of an installed package. *)
Lemma search_pkg_listings_only builtin (overrides : gmap string string)
    conda_env pip_env st pkg PKG_MAP1 module_file1 PKG_MAP2 module_file2 :
  pkg ∈ builtin
  ∨ is_Some (overrides !! pkg)
  ∨ (∃ a, a ∈ (conda_env ++ pip_env)%list
          ∧ Str.startswith a (pkg ++ "=") = true) →
  search_pkg builtin PKG_MAP1 module_file1 overrides conda_env pip_env st pkg
  = search_pkg builtin PKG_MAP2 module_file2 overrides conda_env pip_env st pkg.
Proof.
  intros Hcase. unfold search_pkg.
  destruct (bool_decide (pkg ∈ builtin)) eqn:Hb; [done|].
  destruct (overrides !! pkg) as [name|] eqn:Ho; [done|].
  destruct Hcase as [Hin | [[name Hname] | (a & Hin & Ha)]].
  - apply bool_decide_eq_false_1 in Hb. done.
  - done.
  - unfold choose_dep.
    apply elem_of_app in Hin as [Hin | Hin].
    + by destruct (first_match_member conda_env pkg a Hin Ha) as [b ->].
    + destruct (first_match conda_env pkg); [done|].
      by destruct (first_match_member pip_env pkg a Hin Ha) as [b ->].
Qed.

(** C5 (as the code behaves).  For an identifier that is not a
    built-in module and has an entry in the override map, [search_pkg]
    resolves the override's package name, whatever the listings hold
    under the identifier's own name and whatever the file index and
    the import of the identifier say: the first conda constraint that
    starts with the override's name and [=] is added to the conda
    result, else the first such pip constraint to the pip result, else
    [ImportError] names the override's package.  For every identifier,
    the outcome is determined by the listings, the override map, the
    file of the imported identifier and the index entry of that file;
    the listings and the override map alone determine it when the
    identifier is built in, has an override, or is the name of an
    installed package. *)
Theorem override_takes_precedence
    (builtin : list string) (overrides : gmap string string)
    (conda_env pip_env : list string) (st : pkgs) (pkg : string) :
  (∀ name PKG_MAP module_file,
      pkg ∉ builtin →
      overrides !! pkg = Some name →
      let r := search_pkg builtin PKG_MAP module_file overrides
                          conda_env pip_env st pkg in
      (∀ a, first_named conda_env name a →
            r = Ok (Pkgs ({[a]} ∪ conda_pkgs st) (pip_pkgs st)))
      ∧ (∀ a, none_named conda_env name → first_named pip_env name a →
              r = Ok (Pkgs (conda_pkgs st) ({[a]} ∪ pip_pkgs st)))
      ∧ (none_named conda_env name → none_named pip_env name →
         r = Raise (ImportError (Str.no_match_msg name))))
  ∧ (∀ PKG_MAP1 module_file1 PKG_MAP2 module_file2,
      module_file1 pkg = module_file2 pkg →
      (∀ file, module_file1 pkg = Ok file →
               pkg_map_get PKG_MAP1 file pkg = pkg_map_get PKG_MAP2 file pkg) →
      search_pkg builtin PKG_MAP1 module_file1 overrides conda_env pip_env st pkg
      = search_pkg builtin PKG_MAP2 module_file2 overrides conda_env pip_env st pkg)
  ∧ (∀ PKG_MAP1 module_file1 PKG_MAP2 module_file2,
      pkg ∈ builtin
      ∨ is_Some (overrides !! pkg)
      ∨ (∃ a, a ∈ (conda_env ++ pip_env)%list
              ∧ Str.startswith a (pkg ++ "=") = true) →
      search_pkg builtin PKG_MAP1 module_file1 overrides conda_env pip_env st pkg
      = search_pkg builtin PKG_MAP2 module_file2 overrides conda_env pip_env st pkg).
Proof.
  split; [| split].
  - intros name PKG_MAP module_file Hb Ho r. subst r.
    rewrite (search_pkg_override _ _ _ _ _ _ _ _ name Hb Ho).
    unfold choose_dep. repeat split.
    + intros a Ha. by rewrite (first_match_named _ _ _ Ha).
    + intros a Hnone Ha.
      by rewrite (first_match_none _ _ Hnone), (first_match_named _ _ _ Ha).
    + intros Hc Hp. by rewrite (first_match_none _ _ Hc), (first_match_none _ _ Hp).
  - intros. by apply search_pkg_ext.
  - intros. by apply search_pkg_listings_only.
Qed.

Lemma override_takes_precedence_witness :
  (∀ PKG_MAP module_file,
      search_pkg sample_builtin PKG_MAP module_file sample_overrides
                 sample_conda_env sample_pip_env no_pkgs "yaml"
      = Ok (Pkgs (conda_pkgs no_pkgs) ({[ "pyyaml==5.4" ]} ∪ pip_pkgs no_pkgs)))
  ∧ search_pkg sample_builtin sample_pkg_map sample_module_file sample_overrides
               sample_conda_env sample_pip_env no_pkgs "yaml"
    = search_pkg sample_builtin ∅ sample_local_module_file sample_overrides
                 sample_conda_env sample_pip_env no_pkgs "yaml".
Proof.
  destruct (override_takes_precedence sample_builtin sample_overrides
              sample_conda_env sample_pip_env no_pkgs "yaml") as (H1 & _ & H3).
  split.
  - intros PKG_MAP module_file.
    destruct (H1 "pyyaml" PKG_MAP module_file) as (_ & Hpip & _).
    + apply (bool_decide_eq_false_1 ("yaml" ∈ sample_builtin)). reflexivity.
    + reflexivity.
    + apply Hpip.
      * repeat constructor.
      * exists [], ["requests==2.25.1"]. repeat split. constructor.
  - apply H3. right. left. by exists "pyyaml".
Defined.

(** C5 (as stated) fails: with the same listings and the same override
    map, the identifier [yaml] resolves to [libyaml] when the imported
    file is one the index attributes to it, and to an [ImportError]
    when the interpreter finds another file first, or when the index
    has no entry for the file. *)
Lemma resolution_reads_import_and_index :
  search_pkg sample_builtin sample_pkg_map sample_module_file ∅
             sample_conda_env_no_yaml sample_pip_env no_pkgs "yaml"
  = Ok (Pkgs {[ "libyaml=0.2=0" ]} ∅)
  ∧ search_pkg sample_builtin sample_pkg_map sample_local_module_file ∅
               sample_conda_env_no_yaml sample_pip_env no_pkgs "yaml"
    = Raise (ImportError (Str.no_match_msg "yaml"))
  ∧ search_pkg sample_builtin ∅ sample_module_file ∅
               sample_conda_env_no_yaml sample_pip_env no_pkgs "yaml"
    = Raise (ImportError (Str.no_match_msg "yaml")).
Proof. repeat split; vm_compute; reflexivity. Qed.

(** The listings of the sample hold a package named [yaml], and the file
    index owns the file of the module; the override still decides. *)
Example override_beats_name_and_file :
  search_pkg sample_builtin sample_pkg_map sample_module_file sample_overrides
             sample_conda_env sample_pip_env no_pkgs "yaml"
  = Ok (Pkgs ∅ {[ "pyyaml==5.4" ]})
  ∧ search_pkg sample_builtin sample_pkg_map sample_module_file ∅
             sample_conda_env sample_pip_env no_pkgs "yaml"
  = Ok (Pkgs {[ "yaml=0.2.5=h7b6447c_0" ]} ∅).
Proof. split; vm_compute; reflexivity. Qed.

End ResolverFacts.

(** ** The spec synthesizer *)

Module SynthFacts.
Import Py Synth.

Section Reclassify.
Variable local_pip_pkgs : gmap string string.

(** The loop removes from the set exactly the visited constraints
    whose name is locally editable, and records their names. *)
Lemma reclassify_loop (l : list string) (deps reqs deps' reqs' : gset string) :
  foldl (reclassify local_pip_pkgs) (deps, reqs) l = (deps', reqs') →
  (∀ x, x ∈ deps' ↔ x ∈ deps ∧ ¬ (x ∈ l ∧ only_name x ∈ dom local_pip_pkgs))
  ∧ (∀ n, n ∈ reqs' ↔
          n ∈ reqs ∨ ∃ d, d ∈ l ∧ only_name d = n ∧ n ∈ dom local_pip_pkgs).
Proof.
  revert deps reqs. induction l as [|d l IH]; intros deps reqs; simpl.
  - intros [= <- <-]. split.
    + intros x. split; [intros H; split; [done|] | by intros [H _]].
      intros [H' _]. by apply not_elem_of_nil in H'.
    + intros n. split; [by left|]. intros [H | (d & H & _)]; [done|].
      by apply not_elem_of_nil in H.
  - case_bool_decide as Hd; intros Hfold; apply IH in Hfold as [HD HR]; split.
    + intros x. rewrite HD, elem_of_difference, elem_of_singleton, elem_of_cons.
      split.
      * intros [[Hx Hne] Hn]. split; [done|]. intros [[-> | Hl] Hdom]; tauto.
      * intros [Hx Hn]. split; [split; [done|] |].
        -- intros ->. tauto.
        -- tauto.
    + intros n. rewrite HR, elem_of_union, elem_of_singleton. split.
      * intros [[-> | Hn] | (d' & Hd' & Hname & Hdom)].
        -- right. exists d. rewrite elem_of_cons. auto.
        -- by left.
        -- right. exists d'. rewrite elem_of_cons. auto.
      * intros [Hn | (d' & Hd' & Hname & Hdom)]; [auto|].
        apply elem_of_cons in Hd' as [-> | Hd']; [auto|].
        right. eauto.
    + intros x. rewrite HD, elem_of_cons. split.
      * intros [Hx Hn]. split; [done|]. intros [[-> | Hl] Hdom]; tauto.
      * intros [Hx Hn]. split; [done|]. tauto.
    + intros n. rewrite HR. split.
      * intros [Hn | (d' & Hd' & Hname & Hdom)]; [auto|].
        right. exists d'. rewrite elem_of_cons. auto.
      * intros [Hn | (d' & Hd' & Hname & Hdom)]; [auto|].
        apply elem_of_cons in Hd' as [-> | Hd']; [| right; eauto].
        subst n. done.
Qed.

Lemma reclassify_all_spec (deps reqs deps' reqs' : gset string) :
  reclassify_all local_pip_pkgs deps reqs = (deps', reqs') →
  (∀ x, x ∈ deps' ↔ x ∈ deps ∧ only_name x ∉ dom local_pip_pkgs)
  ∧ (∀ n, n ∈ reqs' ↔
          n ∈ reqs ∨ ∃ d, d ∈ deps ∧ only_name d = n ∧ n ∈ dom local_pip_pkgs).
Proof.
  intros H. apply reclassify_loop in H as [HD HR]. split.
  - intros x. rewrite HD, elem_of_elements. tauto.
  - intros n. rewrite HR. by setoid_rewrite elem_of_elements.
Qed.
End Reclassify.

Lemma lookup_pip_local (local_pip_pkgs : gmap string string)
    (reqs : gset string) n path :
  (set_to_map (fun n => (n, default "" (local_pip_pkgs !! n))) reqs
     : gmap string string) !! n = Some path
  ↔ n ∈ reqs ∧ default "" (local_pip_pkgs !! n) = path.
Proof.
  rewrite lookup_set_to_map by (by intros y y' _ _ [=]).
  split.
  - intros (y & Hy & [= -> <-]). done.
  - intros [Hn <-]. eauto.
Qed.

(** C6.  [create_conda_spec] returns a specification exactly for the
    specs with a [conda] section (without one it raises
    [AttributeError]).  In the specification it returns, every declared
    constraint (of [conda.packages] or of [pip]) whose name without
    version suffix is a key of the editable index is in [pip_local]
    under that name with the path of the index, and is in neither
    [dependencies] nor [pip]; and no key of [pip_local] is the name of a
    constraint left in [dependencies] or [pip]. *)
Theorem pip_local_reclassification
    (poncho_spec : Spec.poncho_spec) (local_pip_pkgs : gmap string string) :
  match Spec.conda poncho_spec,
        create_conda_spec poncho_spec local_pip_pkgs with
  | Some _, Ok cs =>
      (∀ dep path,
          dep ∈ declared poncho_spec →
          local_pip_pkgs !! (only_name dep) = Some path →
          pip_local cs !! (only_name dep) = Some path
          ∧ (dep ∉ dependencies cs) ∧ (dep ∉ pip cs))
      ∧ (∀ n dep,
          n ∈ dom (pip_local cs) →
          dep ∈ (dependencies cs ++ pip cs)%list →
          only_name dep ≠ n)
  | None, Raise e =>
      e = AttributeError "'set' object has no attribute 'append'"
  | _, _ => False
  end.
Proof.
  unfold create_conda_spec, declared.
  destruct (Spec.conda poncho_spec) as [c|]; [| done].
  destruct (reclassify_all _ _ ∅) as [deps reqs1] eqn:H1.
  destruct (reclassify_all _ _ reqs1) as [pips reqs] eqn:H2.
  apply reclassify_all_spec in H1 as [HD1 HR1].
  apply reclassify_all_spec in H2 as [HD2 HR2].
  simpl. split.
  - intros dep path Hdecl Hlocal.
    assert (Hdom : only_name dep ∈ dom local_pip_pkgs)
      by (apply elem_of_dom; eauto).
    split; [| split].
    + apply lookup_pip_local. rewrite Hlocal. split; [| done].

      apply HR2. apply elem_of_app in Hdecl as [Hc | Hp].
      * left. apply HR1. right. exists dep. by rewrite elem_of_list_to_set.
      * right. exists dep. by rewrite elem_of_list_to_set.
    + rewrite elem_of_elements, HD1. tauto.
    + rewrite elem_of_elements, HD2. tauto.
  - intros n dep Hn Hdep Heq. subst n.
    apply elem_of_dom in Hn as [path Hn].
    apply lookup_pip_local in Hn as [Hn _].
    assert (Hdom : only_name dep ∈ dom local_pip_pkgs).
    { apply HR2 in Hn as [Hn | (d & _ & _ & H)]; [| done].
      apply HR1 in Hn as [Hn | (d & _ & _ & H)]; [| done].
      by apply not_elem_of_empty in Hn. }
    apply elem_of_app in Hdep as [Hdep | Hdep];
      rewrite elem_of_elements in Hdep.
    + apply HD1 in Hdep. tauto.
    + apply HD2 in Hdep. tauto.
Qed.

Lemma pip_local_reclassification_witness :
  ∃ cs, create_conda_spec sample_spec sample_editable = Ok cs
        ∧ pip_local cs !! "mine" = Some "/src/mine"
        ∧ "mine>=0.1" ∉ dependencies cs.
Proof.
  pose proof (pip_local_reclassification sample_spec sample_editable) as H.
  simpl Spec.conda in H. cbv iota in H.
  destruct (create_conda_spec sample_spec sample_editable) as [cs|e] eqn:Hcs;
    [| destruct H].
  exists cs. split; [reflexivity|].
  destruct H as [H _].
  destruct (H "mine>=0.1" "/src/mine") as (Hlocal & Hdep & _).
  - vm_compute. apply list_elem_of_In. simpl. auto.
  - reflexivity.
  - split; [exact Hlocal | exact Hdep].
Defined.

Example create_conda_spec_sample :
  create_conda_spec sample_spec sample_editable
  = Ok {| channels := ["conda-forge"; "defaults"];
          dependencies := ["python=3.9"];
          pip := ["requests"];
          name := "base";
          pip_local := {[ "mine" := "/src/mine" ]} |}.
Proof. vm_compute. reflexivity. Qed.

(** Without a [conda] section no specification is produced. *)
Example create_conda_spec_without_conda :
  create_conda_spec
    {| Spec.conda := None; Spec.pip := Some ["requests"];
       Spec.git := None; Spec.http := None |} ∅
  = Raise (AttributeError "'set' object has no attribute 'append'").
Proof. reflexivity. Qed.

End SynthFacts.

(** ** The external data fetcher *)

Module FetcherFacts.
Import Py Spec Fetcher.

Lemma for_each_app {A S} (body : S → A → result S) l1 l2 s :
  for_each body (l1 ++ l2) s = bind (for_each body l1 s) (for_each body l2).
Proof.
  revert s. induction l1 as [|x l1 IH]; intros s; simpl; [done|].
  destruct (body s x); simpl; [apply IH | done].
Qed.

(** A step that does nothing can be dropped from the loop. *)
Lemma for_each_skip {A S} (body : S → A → result S) l1 x l2 s :
  (∀ s', body s' x = Ok s') →
  for_each body (l1 ++ x :: l2) s = for_each body (l1 ++ l2) s.
Proof.
  intros Hx. rewrite !for_each_app. destruct (for_each body l1 s); simpl; [|done].
  by rewrite Hx.
Qed.

Section Tools.
Variable served : string → option string.
Variable repos : string → option (list (string * string)).
Variable tar_members : bool → string → option (list (string * string)).
Variable gunzip : string → option string.

Abbreviation git_entry_step := (git_entry_step served repos tar_members gunzip).
Abbreviation http_entry_step := (http_entry_step served repos tar_members gunzip).
Abbreviation check_call := (check_call served repos tar_members gunzip).

Lemma git_entry_without_remote out_dir w git_dir g :
  remote g = None → git_entry_step out_dir w (git_dir, g) = Ok w.
Proof. intros H. unfold Fetcher.git_entry_step. by rewrite H. Qed.

Lemma http_entry_without_url out_dir w filename h :
  url h = None → http_entry_step out_dir w (filename, h) = Ok w.
Proof. intros H. unfold Fetcher.http_entry_step. by rewrite H. Qed.

(** C9.  A git entry without a [remote] field and an http entry
    without a [url] field leave the world as it is: the step returns
    normally with the same files (so nothing is created and no line
    is added to [poncho/set_env]) and the same log of subprocesses
    (so nothing is fetched); the loops over the entries run as if
    the entry were not declared. *)
Theorem entry_without_source_is_skipped
    (out_dir : string) (w : world)
    (git_dir : string) (g : git_entry) (filename : string) (h : http_entry) :
  remote g = None →
  url h = None →
  git_entry_step out_dir w (git_dir, g) = Ok w
  ∧ http_entry_step out_dir w (filename, h) = Ok w
  ∧ (∀ before after,
        for_each (git_entry_step out_dir) (before ++ (git_dir, g) :: after) w
        = for_each (git_entry_step out_dir) (before ++ after) w)
  ∧ (∀ before after,
        for_each (http_entry_step out_dir) (before ++ (filename, h) :: after) w
        = for_each (http_entry_step out_dir) (before ++ after) w).
Proof.
  intros Hg Hh. repeat split.
  - by apply git_entry_without_remote.
  - by apply http_entry_without_url.
  - intros. apply for_each_skip. intros. by apply git_entry_without_remote.
  - intros. apply for_each_skip. intros. by apply http_entry_without_url.
Qed.

(** *** What the steps of the tar+gzip branch do to the files *)

Lemma append_assoc (a b c : string) :
  ((a ++ b) ++ c)%string = (a ++ (b ++ c))%string.
Proof.
  induction a as [|x a IH]; [done|].
  change (String x ((a ++ b) ++ c) = String x (a ++ (b ++ c)))%string.
  by rewrite IH.
Qed.

Lemma app_not_self (s t : string) c : (s ++ String c t)%string ≠ s.
Proof.
  induction s as [|a s IH]; simpl; [done|]. intros [= H]. by apply IH.
Qed.

Lemma place_other dir members (fs : gmap string entry) p :
  (∀ rel, p ≠ (dir ++ "/" ++ rel)%string) →
  place dir members fs !! p = fs !! p.
Proof.
  intros Hp. unfold place. revert fs.
  induction members as [|[rel c] members IH]; intros fs; simpl; [done|].
  rewrite IH. apply lookup_insert_ne. intros Heq. by apply (Hp rel).
Qed.

Lemma curl_ok u out w w1 :
  check_call ["curl"; u; "--output"; out] w = Ok w1 →
  ∃ body, served u = Some body
          ∧ files w1 = <[out := File body]> (files w)
          ∧ calls w1 = (calls w ++ [["curl"; u; "--output"; out]])%list.
Proof.
  unfold Fetcher.check_call. cbn.
  destruct (served u) as [body|] eqn:Hs; cbn; [|done].
  destruct (files w !! dirname out) as [[|]|]; try done.
  destruct (files w !! out) as [[|]|]; try done; intros [= <-]; eauto.
Qed.

Lemma tar_xzf_ok archive dir w w1 :
  check_call ["tar"; "-xzf"; archive; "-C"; dir] w = Ok w1 →
  ∃ c members, files w !! archive = Some (File c)
          ∧ tar_members true c = Some members
          ∧ files w1 = place dir members (files w)
          ∧ calls w1 = (calls w ++ [["tar"; "-xzf"; archive; "-C"; dir]])%list.
Proof.
  unfold Fetcher.check_call. cbn.
  destruct (files w !! archive) as [[c|]|]; try done.
  destruct (files w !! dir) as [[|]|]; try done. cbn.
  destruct (tar_members true c) as [members|] eqn:Hm; cbn; [|done].
  intros [= <-]. exists c, members. done.
Qed.

Lemma os_mkdir_ok path w w1 :
  os_mkdir path w = Ok w1 →
  files w !! path = None
  ∧ files w1 = <[path := Dir]> (files w) ∧ calls w1 = calls w.
Proof.
  unfold os_mkdir, exists_path, is_dir.
  destruct (files w !! path); [done|].
  destruct (files w !! dirname path) as [[|]|]; try done.
  by intros [= <-].
Qed.

Lemma append_to_ok path text w w1 :
  append_to path text w = Ok w1 →
  ∃ old, files w1 = <[path := File (old ++ text)]> (files w)
         ∧ files w !! path ≠ Some Dir ∧ calls w1 = calls w.
Proof.
  unfold append_to, is_dir.
  destruct (files w !! dirname path) as [[|]|]; try done.
  destruct (files w !! path) as [[c|]|]; try done; intros [= <-].
  - by exists c.
  - by exists EmptyString.
Qed.

Lemma add_hook_ok out_dir name w w1 :
  add_hook out_dir name w = Ok w1 →
  calls w1 = calls w
  ∧ (∃ old, files w1 !! (out_dir ++ "/poncho/set_env")%string
            = Some (File (old ++ hook_line name)))
  ∧ (∀ p, files w !! p = Some Dir → files w1 !! p = Some Dir)
  ∧ (∀ p c, p ≠ (out_dir ++ "/poncho/set_env")%string →
            files w !! p = Some (File c) → files w1 !! p = Some (File c)).
Proof.
  unfold add_hook.
  destruct (negb _) eqn:Hex.
  - destruct (os_mkdir _ w) as [w0|] eqn:Hmk; simpl; [|done].
    apply os_mkdir_ok in Hmk as (Hnone & Hfs0 & Hc0).
    intros (old & Hfs1 & Hnd & Hc1)%append_to_ok.
    rewrite Hfs1, Hc1, Hc0. split; [done|]. split; [|split].
    + exists old. apply lookup_insert_eq.
    + intros p Hp. rewrite lookup_insert_ne.
      * rewrite Hfs0, lookup_insert_ne; [done|]. congruence.
      * intros <-. apply Hnd. rewrite Hfs0, lookup_insert_ne; [done|]. congruence.
    + intros p c Hne Hp. rewrite lookup_insert_ne by done.
      rewrite Hfs0, lookup_insert_ne; [done|]. congruence.
  - simpl. intros (old & Hfs1 & Hnd & Hc1)%append_to_ok.
    rewrite Hfs1, Hc1. split; [done|]. split; [|split].
    + exists old. apply lookup_insert_eq.
    + intros p Hp. rewrite lookup_insert_ne; [done|]. congruence.
    + intros p c Hne Hp. by rewrite lookup_insert_ne.
Qed.

Lemma archive_is_not_the_hook_script (out_dir filename : string) :
  (out_dir ++ "/" ++ filename ++ ".tar.gz")%string
  ≠ (out_dir ++ "/poncho/set_env")%string.
Proof.
  intros H%(inj (String.app out_dir)). simpl in H. injection H as H.
  repeat (destruct filename as [|? filename]; simpl in H;
          [discriminate H | injection H as _ H]).
  destruct filename; discriminate H.
Qed.

Lemma place_keeps dir members (fs : gmap string entry) p :
  is_Some (fs !! p) → is_Some (place dir members fs !! p).
Proof.
  unfold place. revert fs.
  induction members as [|[rel c] members IH]; intros fs H; simpl; [done|].
  apply IH. destruct (decide ((dir ++ "/" ++ rel)%string = p)) as [<-|Hne].
  - rewrite lookup_insert_eq. eauto.
  - by rewrite lookup_insert_ne.
Qed.

Lemma place_member dir members (fs : gmap string entry) rel c :
  (rel, c) ∈ members → is_Some (place dir members fs !! (dir ++ "/" ++ rel)%string).
Proof.
  unfold place. revert fs.
  induction members as [|[rel' c'] members IH]; intros fs H; simpl.
  - by apply not_elem_of_nil in H.
  - apply elem_of_cons in H as [[= <- <-] | H]; [| by apply IH].
    apply place_keeps. rewrite lookup_insert_eq. eauto.
Qed.

Lemma add_hook_keeps out_dir name w w1 p :
  add_hook out_dir name w = Ok w1 →
  is_Some (files w !! p) → is_Some (files w1 !! p).
Proof.
  intros (_ & [old Hold] & Hdir & Hfile)%add_hook_ok [[c|] Hp].
  - destruct (decide (p = (out_dir ++ "/poncho/set_env")%string)) as [->|Hne].
    + rewrite Hold. eauto.
    + rewrite (Hfile p c); eauto.
  - rewrite (Hdir p); eauto.
Qed.

(** C7 (as the code behaves).  For an http entry with a non-empty
    [url], type [tar] and compression [gzip] whose step succeeds:
    [curl] downloads the URL to [<root>/<name>.tar.gz], the directory
    [<root>/<name>] is created and [tar -xzf] extracts the download
    into it, no other subprocess is started, a line for the entry is
    appended to [poncho/set_env], and the downloaded archive file is
    still at [<root>/<name>.tar.gz] with the content downloaded. *)
Theorem tar_gzip_entry_keeps_archive
    (out_dir filename u : string) (h : http_entry) (w w' : world) :
  url h = Some u →
  Str.truthy u = true →
  type h = Some "tar" →
  compression h = Some "gzip" →
  http_entry_step out_dir w (filename, h) = Ok w' →
  let path := (out_dir ++ "/" ++ filename)%string in
  let tgz := (path ++ ".tar.gz")%string in
  ∃ body members,
    served u = Some body
    ∧ tar_members true body = Some members
    ∧ calls w' = (calls w ++ [["curl"; u; "--output"; tgz];
                               ["tar"; "-xzf"; tgz; "-C"; path]])%list
    ∧ files w' !! path = Some Dir
    ∧ (∀ rel c, (rel, c) ∈ members →
                is_Some (files w' !! (path ++ "/" ++ rel)%string))
    ∧ files w' !! tgz = Some (File body)
    ∧ ∃ old, files w' !! (out_dir ++ "/poncho/set_env")%string
             = Some (File (old ++ hook_line filename)).
Proof.
  intros Hurl Htruthy Htype Hcomp Hstep path tgz.
  unfold Fetcher.http_entry_step in Hstep.
  assert (is_str (type h) "tar" = true) as Ht by (by rewrite Htype).
  assert (is_str (compression h) "gzip" = true) as Hz by (by rewrite Hcomp).
  rewrite Hurl, Htruthy, Ht, Hz in Hstep. cbn [andb] in Hstep.
  fold path tgz in Hstep.
  destruct (check_call _ w) as [w1|] eqn:Hcurl; simpl in Hstep; [|done].
  destruct (os_mkdir _ w1) as [w2|] eqn:Hmk; simpl in Hstep; [|done].
  destruct (check_call _ w2) as [w3|] eqn:Htar; simpl in Hstep; [|done].
  apply curl_ok in Hcurl as (body & Hserved & Hfs1 & Hc1).
  apply os_mkdir_ok in Hmk as (Hfresh & Hfs2 & Hc2).
  apply tar_xzf_ok in Htar as (c & members & Harch & Hmem & Hfs3 & Hc3).
  fold path in Hfresh, Hfs2, Hfs3, Hc3. fold tgz in Hfs1, Hc1, Harch, Hfs3, Hc3.
  assert (Hne : path ≠ tgz).
  { intros Heq. symmetry in Heq. by apply app_not_self in Heq. }
  assert (Htgz2 : files w2 !! tgz = Some (File body)).
  { rewrite Hfs2, lookup_insert_ne, Hfs1 by done. apply lookup_insert_eq. }
  rewrite Htgz2 in Harch. injection Harch as <-.
  assert (Htgz3 : files w3 !! tgz = Some (File body)).
  { rewrite Hfs3, place_other; [done|]. intros rel Heq.
    unfold tgz in Heq. apply (inj (String.app path)) in Heq. discriminate Heq. }
  assert (Hpath3 : files w3 !! path = Some Dir).
  { rewrite Hfs3, place_other.
    - rewrite Hfs2. apply lookup_insert_eq.
    - intros rel Heq. symmetry in Heq. by apply app_not_self in Heq. }
  pose proof (add_hook_ok _ _ _ _ Hstep) as (Hc4 & Hhook & Hdir & Hfile).
  exists body, members. repeat split; try done.
  - rewrite Hc4, Hc3, Hc2, Hc1, <- app_assoc. done.
  - by apply Hdir.
  - intros rel c Hin. eapply add_hook_keeps; [done|].
    rewrite Hfs3. by eapply place_member.
  - apply Hfile; [| done]. unfold tgz, path.
    rewrite !append_assoc. apply archive_is_not_the_hook_script.
Qed.
End Tools.

(** C7 (as stated) fails: after the fetch of the sample entry the
    directory [data/] is there and so is the downloaded
    [data.tar.gz]. *)
Lemma tar_gzip_archive_not_discarded :
  ∃ w', http_data sample_served sample_repos sample_tar_members sample_gunzip
                  sample_http_spec "/env" sample_world = Ok w'
        ∧ files w' !! "/env/data" = Some Dir
        ∧ files w' !! "/env/data/a.txt" = Some (File "hello")
        ∧ files w' !! "/env/data.tar.gz" = Some (File "TGZ")
        ∧ calls w' = [["curl"; "http://host/data.tgz"; "--output"; "/env/data.tar.gz"];
                      ["tar"; "-xzf"; "/env/data.tar.gz"; "-C"; "/env/data"]].
Proof. eexists. split; [vm_compute; reflexivity |]. vm_compute. done. Qed.

Lemma tar_gzip_entry_keeps_archive_witness :
  ∃ w',
    http_entry_step sample_served sample_repos sample_tar_members sample_gunzip
                    "/env" sample_world ("data", sample_http_entry) = Ok w'
    ∧ files w' !! "/env/data.tar.gz" = Some (File "TGZ")
    ∧ files w' !! "/env/data" = Some Dir.
Proof.
  assert (Hstep : ∃ w',
             http_entry_step sample_served sample_repos sample_tar_members
                             sample_gunzip "/env" sample_world
                             ("data", sample_http_entry) = Ok w')
    by (eexists; vm_compute; reflexivity).
  destruct Hstep as [w' Hstep]. exists w'. split; [exact Hstep|].
  destruct (tar_gzip_entry_keeps_archive sample_served sample_repos
              sample_tar_members sample_gunzip "/env" "data"
              "http://host/data.tgz" sample_http_entry sample_world w'
              eq_refl eq_refl eq_refl eq_refl Hstep)
    as (body & members & Hs & _ & _ & Hdir & _ & Hkeep & _).
  injection Hs as <-. split; [exact Hkeep | exact Hdir].
Defined.

Lemma entry_without_source_is_skipped_witness :
  git_entry_step sample_served sample_repos sample_tar_members sample_gunzip
                 "/env" sample_world ("repo", {| remote := None; ref := Some "main" |})
  = Ok sample_world
  ∧ http_entry_step sample_served sample_repos sample_tar_members sample_gunzip
                 "/env" sample_world
                 ("blob", {| url := None; type := Some "tar"; compression := None |})
  = Ok sample_world.
Proof.
  destruct (entry_without_source_is_skipped sample_served sample_repos
              sample_tar_members sample_gunzip "/env" sample_world
              "repo" {| remote := None; ref := Some "main" |}
              "blob" {| url := None; type := Some "tar"; compression := None |}
              eq_refl eq_refl) as (Hg & Hh & _).
  split; [exact Hg | exact Hh].
Defined.

End FetcherFacts.

(** ** The runner, one invocation *)

Module RunnerFacts.
Import Runner.

(** C2.  In [UNTAR_SCRIPT] the marker is written only when [tar] and
    [conda-unpack] have both run and succeeded, in this order and
    before the marker; when the marker is absent and one of the two
    fails, the marker is not written, it is still absent afterwards,
    and the script exits with status 1. *)
Theorem marker_written_only_after_success
    (a : archive) (env_name unpack_to : string) (t : target) (d : string) :
  let '(tr, t', st) := untar_script a env_name unpack_to t in
  (In (WriteMarker d) tr →
     d = unpack_to
     ∧ tar_ok a = true ∧ conda_unpack_ok a = true
     ∧ before (TarX env_name unpack_to true) (CondaUnpack unpack_to true) tr
     ∧ before (CondaUnpack unpack_to true) (WriteMarker d) tr
     ∧ t' = Target true true true ∧ st = 0)
  ∧ (marker t = false →
     tar_ok a = false ∨ conda_unpack_ok a = false →
     ¬ In (WriteMarker d) tr ∧ marker t' = false ∧ st = 1).
Proof.
  unfold untar_script.
  destruct (marker t) eqn:Hm, (tar_ok a) eqn:Ht, (conda_unpack_ok a) eqn:Hu;
    simpl; (split; [intros Hin | intros Hmark Hfail]);
    try (exfalso; clear -Hin; intuition discriminate);
    try discriminate Hmark;
    try (destruct Hfail; discriminate);
    try (split; [|done]; intros Hin; clear -Hin; intuition discriminate).
  destruct Hin as [Hin | [Hin | [Hin | []]]]; try discriminate Hin.
  injection Hin as <-. repeat split.
  - by exists [], [], [WriteMarker unpack_to].
  - by exists [TarX env_name unpack_to true], [], [].
Qed.

Lemma marker_written_only_after_success_witness :
  (In (WriteMarker "/scratch/env")
      [TarX "env.tar.gz" "/scratch/env" true; CondaUnpack "/scratch/env" true;
       WriteMarker "/scratch/env"] →
   before (CondaUnpack "/scratch/env" true) (WriteMarker "/scratch/env")
      [TarX "env.tar.gz" "/scratch/env" true; CondaUnpack "/scratch/env" true;
       WriteMarker "/scratch/env"])
  ∧ (untar_script {| tar_ok := true; conda_unpack_ok := false |}
                  "env.tar.gz" "/scratch/env" fresh).2 = 1.
Proof.
  split.
  - intros Hin.
    pose proof (marker_written_only_after_success valid_archive "env.tar.gz"
                  "/scratch/env" fresh "/scratch/env") as [H _].
    apply (H Hin).
  - pose proof (marker_written_only_after_success
                  {| tar_ok := true; conda_unpack_ok := false |} "env.tar.gz"
                  "/scratch/env" fresh "/scratch/env") as [_ H].
    apply H; [reflexivity | right; reflexivity].
Defined.

(** *** Exit status *)

(** The loop of [parse_arguments] exits only for the two help options,
    with status 0. *)
Lemma parse_loop_exit n : ∀ o args evs code,
  (List.length args ≤ n)%nat →
  parse_loop o args = inl (evs, code) →
  (evs = [Usage] ∨ evs = [HelpEnvCreation]) ∧ code = 0.
Proof.
  induction n as [|n IH]; intros o [|a rest] evs code Hlen; simpl in *;
    try done; try lia.
  repeat (match goal with
          | |- context [if ?b then _ else _] => destruct b
          end; try (intros [= <- <-]; auto; fail); try done).
  all: destruct rest as [|v rest']; try done; try (apply IH; simpl in *; lia).
Qed.

Lemma parse_arguments_exit args evs code :
  parse_arguments args = inl (evs, code) →
  ((evs = [Usage] ∨ evs = [HelpEnvCreation]) ∧ code = 0)
  ∨ ((evs = [Errmsg NoEnvironment; Usage] ∨ evs = [Errmsg NoCommand; Usage])
     ∧ code = 1).
Proof.
  unfold parse_arguments.
  destruct (parse_loop _ args) as [[evs' code']|[o rest]] eqn:Hloop.
  - intros [= <- <-]. left. by eapply parse_loop_exit.
  - destruct (String.eqb _ _); [intros [= <- <-]; auto|].
    destruct (_ <? _)%nat; [intros [= <- <-]; auto | done].
  Qed.

Lemma failure_of_app tr1 tr2 :
  failure_of (tr1 ++ tr2) =
  match failure_of tr1 with Some c => Some c | None => failure_of tr2 end.
Proof.
  induction tr1 as [|e tr1 IH]; simpl; [done|].
  destruct e; try done. by destruct (class_of m).
Qed.

(** Case analysis on the innermost test that blocks reduction. *)
Ltac split_run :=
  repeat (match goal with
          | |- context [match ?x with _ => _ end] =>
              lazymatch x with
              | context [match _ with _ => _ end] => fail
              | _ => destruct x eqn:?
              end
          end; simpl).

Ltac in_trace H :=
  simpl in H;
  repeat match type of H with
         | _ ∨ _ => destruct H as [H | H]; [try discriminate H | ]
         | False => destruct H
         end.

(** A run whose trace holds the execution of a command ends with the
    status of that command and has logged no fatal message. *)
Lemma run_exec_status h inherited args argv e :
  In (Exec argv e) (trace (run h inherited args)) →
  status (run h inherited args) = command h argv e
  ∧ failure_of (trace (run h inherited args)) = None.
Proof.
  unfold run.
  destruct (parse_arguments args) as [[evs code]|[o n]] eqn:Hparse.
  { apply parse_arguments_exit in Hparse as [[[-> | ->] ->] | [[-> | ->] ->]];
      simpl; intros H; in_trace H. }
  unfold locked_unpack, untar_script, cleanup.
  split_run; intros H; in_trace H; by injection H as <- <-.
Qed.

(** A run that logs a fatal message ends with status 1 and executes
    nothing. *)
Lemma run_failure_status h inherited args c :
  failure_of (trace (run h inherited args)) = Some c →
  status (run h inherited args) = 1
  ∧ executed (trace (run h inherited args)) = false.
Proof.
  unfold run.
  destruct (parse_arguments args) as [[evs code]|[o n]] eqn:Hparse.
  { by apply parse_arguments_exit in Hparse as [[[-> | ->] ->] | [[-> | ->] ->]]. }
  unfold locked_unpack, untar_script, cleanup.
  split_run; done.
Qed.

(** Every run ends with a help screen, a failure or the command. *)
Lemma run_cases h inherited args :
  let o := run h inherited args in
  (status o = 0 ∧ failure_of (trace o) = None ∧ executed (trace o) = false)
  ∨ (∃ c, failure_of (trace o) = Some c)
  ∨ (∃ argv e, In (Exec argv e) (trace o)).
Proof.
  unfold run.
  destruct (parse_arguments args) as [[evs code]|[o n]] eqn:Hparse.
  { apply parse_arguments_exit in Hparse as [[[-> | ->] ->] | [[-> | ->] ->]];
      simpl; eauto 10. }
  unfold locked_unpack, untar_script, cleanup.
  split_run.
  all: try (left; done).
  all: try (right; left; eexists; done).
  all: right; right; eexists _, _; repeat (first [left; reflexivity | right]).
Qed.

(** C8 (as the code behaves).  A run that executes the command exits
    with the status of the command; a run that fails before, in any of
    the classes bad arguments, lock timeout, extraction failure,
    relocation failure and activation failure, exits with status 1 and
    does not execute the command; and a run that does neither has shown
    a help screen and exits with status 0. *)
Theorem exit_status_of_run
    (h : host) (inherited : gmap string string) (args : list string) :
  let o := run h inherited args in
  (∀ argv e, In (Exec argv e) (trace o) →
             status o = command h argv e ∧ failure_of (trace o) = None)
  ∧ (∀ c, failure_of (trace o) = Some c →
          status o = 1 ∧ executed (trace o) = false)
  ∧ ((∃ argv e, In (Exec argv e) (trace o))
     ∨ (∃ c, failure_of (trace o) = Some c)
     ∨ status o = 0).
Proof.
  intros o. split; [| split].
  - intros argv e. apply run_exec_status.
  - intros c. apply run_failure_status.
  - destruct (run_cases h inherited args) as [(H & _) | [H | H]]; auto.
Qed.

Lemma exit_status_of_run_witness :
  status (run (sample_host Acquired valid_archive 0) sample_inherited sample_args)
  = command (sample_host Acquired valid_archive 0)
            ["python"; "-c"; "import requests"] sample_command_env
  ∧ status (run (sample_host TimedOut valid_archive 0) sample_inherited sample_args)
    = 1.
Proof.
  split.
  - pose proof (exit_status_of_run (sample_host Acquired valid_archive 0)
                  sample_inherited sample_args) as [H _].
    apply (H ["python"; "-c"; "import requests"] sample_command_env).
    vm_compute. do 9 right. left. reflexivity.
  - pose proof (exit_status_of_run (sample_host TimedOut valid_archive 0)
                  sample_inherited sample_args) as (_ & H & _).
    apply (H LockTimeout). vm_compute. reflexivity.
Defined.

(** C8 (as stated) fails: the five failure classes end with the same
    exit status. *)
Lemma failure_classes_share_exit_status :
  let bad := run (sample_host Acquired valid_archive 0) sample_inherited
                 ["-u"; "/scratch/env"; "python"] in
  let timeout := run (sample_host TimedOut valid_archive 0) sample_inherited
                     sample_args in
  let extraction :=
    run (sample_host Acquired {| tar_ok := false; conda_unpack_ok := true |} 0)
        sample_inherited sample_args in
  let relocation :=
    run (sample_host Acquired {| tar_ok := true; conda_unpack_ok := false |} 0)
        sample_inherited sample_args in
  let activation := run (sample_host Acquired valid_archive 1) sample_inherited
                        sample_args in
  failure_of (trace bad) = Some BadArguments
  ∧ failure_of (trace timeout) = Some LockTimeout
  ∧ failure_of (trace extraction) = Some ExtractionFailure
  ∧ failure_of (trace relocation) = Some RelocationFailure
  ∧ failure_of (trace activation) = Some ActivationFailure
  ∧ status bad = 1 ∧ status timeout = 1 ∧ status extraction = 1
  ∧ status relocation = 1 ∧ status activation = 1.
Proof. vm_compute. repeat split. Qed.

(** *** The environment of the command *)

(** The variables left after [unset PYTHONPATH] do not depend on the
    [PYTHONPATH] the runner was started with. *)
Lemma unset_forgets_inherited (p : string) (debug : bool)
    (inherited : gmap string string) :
  delete "PYTHONPATH"
    (if debug
     then <["PONCHO_PACKAGE_RUN_DEBUG" := "yes"]>
            (<["ORIGINAL_PID" := p]> (delete "PYTHONPATH" inherited))
     else <["ORIGINAL_PID" := p]> (delete "PYTHONPATH" inherited))
  = delete "PYTHONPATH"
      (if debug
       then <["PONCHO_PACKAGE_RUN_DEBUG" := "yes"]>
              (<["ORIGINAL_PID" := p]> inherited)
       else <["ORIGINAL_PID" := p]> inherited).
Proof.
  apply map_eq. intros k.
  destruct (decide (k = "PYTHONPATH")) as [->|Hk].
  - by rewrite !lookup_delete_eq.
  - rewrite !lookup_delete_ne by done.
    assert (Hpid : ∀ m : gmap string string,
               m !! k = inherited !! k →
               <["ORIGINAL_PID" := p]> m !! k
               = <["ORIGINAL_PID" := p]> inherited !! k).
    { intros m Hm. destruct (decide ("ORIGINAL_PID" = k)) as [<-|Hne].
      - by rewrite !lookup_insert_eq.
      - by rewrite !lookup_insert_ne. }
    specialize (Hpid _ (lookup_delete_ne inherited "PYTHONPATH" k
                          (not_eq_sym Hk))).
    destruct debug; [| done].
    destruct (decide ("PONCHO_PACKAGE_RUN_DEBUG" = k)) as [<-|Hne].
    + by rewrite !lookup_insert_eq.
    + by rewrite !(lookup_insert_ne _ "PONCHO_PACKAGE_RUN_DEBUG") by done.
Qed.

Lemma adjacent_here {A} (x y : A) tr :
  ∃ l1 l2, x :: y :: tr = (l1 ++ x :: y :: l2)%list.
Proof. by exists [], tr. Qed.

Lemma adjacent_later {A} (x y a : A) tr :
  (∃ l1 l2, tr = (l1 ++ x :: y :: l2)%list) →
  ∃ l1 l2, a :: tr = (l1 ++ x :: y :: l2)%list.
Proof. intros (l1 & l2 & ->). by exists (a :: l1), l2. Qed.

Lemma run_forgets_pythonpath h inherited args :
  run h (delete "PYTHONPATH" inherited) args = run h inherited args.
Proof.
  unfold run. destruct (parse_arguments args) as [[evs code]|[o n]]; [done|].
  by rewrite unset_forgets_inherited.
Qed.

(** C10.  In a run that sources [bin/activate], [unset PYTHONPATH] is
    the step just before, the variables [bin/activate] starts from have
    no [PYTHONPATH], and the whole run, with the variables handed to the
    command, is the one obtained when the caller's environment has no
    [PYTHONPATH] at all. *)
Theorem pythonpath_unset_before_activation
    (h : host) (inherited : gmap string string) (args : list string)
    (dir : string) (e : gmap string string) :
  In (SourceActivate dir e) (trace (run h inherited args)) →
  e !! "PYTHONPATH" = None
  ∧ (∃ l1 l2, trace (run h inherited args)
              = (l1 ++ UnsetPythonpath :: SourceActivate dir e :: l2)%list)
  ∧ (∀ v, run h (<["PYTHONPATH" := v]> inherited) args
          = run h (delete "PYTHONPATH" inherited) args).
Proof.
  intros Hin. split; [| split].
  - revert Hin. unfold run.
    destruct (parse_arguments args) as [[evs code]|[o n]] eqn:Hparse.
    { apply parse_arguments_exit in Hparse as [[[-> | ->] ->] | [[-> | ->] ->]];
        simpl; intros H; in_trace H. }
    unfold locked_unpack, untar_script, cleanup.
    split_run; intros H; in_trace H; injection H as <- <-;
      apply lookup_delete_eq.
  - revert Hin. unfold run.
    destruct (parse_arguments args) as [[evs code]|[o n]] eqn:Hparse.
    { apply parse_arguments_exit in Hparse as [[[-> | ->] ->] | [[-> | ->] ->]];
        simpl; intros H; in_trace H. }
    unfold locked_unpack, untar_script, cleanup.
    split_run; intros H; in_trace H; injection H as <- <-;
      repeat first [apply adjacent_here | apply adjacent_later].
  - intros v. rewrite <- (run_forgets_pythonpath h (<["PYTHONPATH" := v]> inherited)).
    by rewrite delete_insert_eq.
Qed.

Lemma pythonpath_unset_before_activation_witness :
  sample_activation_env !! "PYTHONPATH" = None
  ∧ run (sample_host Acquired valid_archive 0)
        (<["PYTHONPATH" := "/somewhere/else"]> sample_inherited) sample_args
    = run (sample_host Acquired valid_archive 0)
          (delete "PYTHONPATH" sample_inherited) sample_args.
Proof.
  destruct (pythonpath_unset_before_activation
              (sample_host Acquired valid_archive 0) sample_inherited sample_args
              "/scratch/env" sample_activation_env) as (H1 & _ & H3).
  - vm_compute. do 7 right. left. reflexivity.
  - split; [exact H1 | exact (H3 "/somewhere/else")].
Defined.

(** The command of the sample host tells whether it sees a
    [PYTHONPATH]; started with one, the runner still ends with 0. *)
Example command_sees_no_pythonpath :
  sample_inherited !! "PYTHONPATH" = Some "/home/user/lib"
  ∧ status (run (sample_host Acquired valid_archive 0) sample_inherited
                sample_args) = 0.
Proof. split; vm_compute; reflexivity. Qed.

End RunnerFacts.

(** ** The runner, many invocations *)

Module SharedFacts.
Import Runner Shared.

Lemma step_length a c s : List.length (procs (step a c s)) = List.length (procs s).
Proof.
  unfold step, move.
  repeat (match goal with
          | |- context [match ?x with _ => _ end] => destruct x
          end; simpl; rewrite ?length_insert); done.
Qed.

Lemma run_schedule_length a sched s :
  List.length (procs (run_schedule a sched s)) = List.length (procs s).
Proof.
  unfold run_schedule. revert s.
  induction sched as [|c sched IH]; intros s; simpl; [done|].
  by rewrite IH, step_length.
Qed.

Lemma inv_init n : inv (init n).
Proof.
  split; simpl.
  - done.
  - intros i sp [[=] _]%lookup_replicate.
  - done.
  - intros _. repeat split.
    + by intros i p [-> _]%lookup_replicate.
    + by intros _ i p [-> _]%lookup_replicate.
Qed.

(** The holder of the lock is the only invocation inside the script. *)
Lemma holder_unique s i j sp sq :
  inv s → procs s !! i = Some (InScript sp) → procs s !! j = Some (InScript sq) →
  i = j.
Proof.
  intros Hinv Hi Hj.
  destruct (inv_in_script s Hinv i sp Hi) as [Hli _].
  destruct (inv_in_script s Hinv j sq Hj) as [Hlj _]. congruence.
Qed.

(** An invocation past the script has left the marker behind. *)
Lemma beyond_script_marker s i p :
  inv s → procs s !! i = Some p → (in_script p || idle p)%bool = false →
  marker (dir s) = true.
Proof.
  intros Hinv Hi Hp. destruct (marker (dir s)) eqn:Hm; [done|].
  destruct (inv_no_marker s Hinv Hm) as [Hall _].
  rewrite (Hall i p Hi) in Hp. done.
Qed.

Ltac updated H :=
  apply list_lookup_insert_Some in H as [(<- & H & ?) | (? & H)];
  [try discriminate H; try (injection H as <-) |].

Lemma step_inv a c s : valid a → inv s → inv (step a c s).
Proof.
  intros [Htar Hunpack] Hinv. unfold step.
  destruct (procs s !! who c) as [p|] eqn:Hp; [| done].
  set (i := who c) in *.
  destruct p as [|sp| | | |]; try done.
  - (* [flock] *)
    destruct (lock s) as [j|] eqn:Hlock.
    + destruct (expires c); [| done].
      destruct (inv_lock_held s Hinv j Hlock) as [sq Hj].
      split; simpl; rewrite ?Hlock.
      * intros k [= <-]. exists sq. rewrite list_lookup_insert_ne; [done|].
        intros <-. congruence.
      * intros k sq' Hk. updated Hk. rewrite <- Hlock.
        by apply (inv_in_script s Hinv).
      * apply (inv_marker s Hinv).
      * intros Hm. destruct (inv_no_marker s Hinv Hm) as (Hall & _ & Hperf).
        repeat split; [| done |].
        -- intros k p Hk. updated Hk; [by subst | eauto].
        -- intros Hnone. apply Hperf. intros k Hk. apply (Hnone k).
           rewrite list_lookup_insert_ne; [done|]. intros <-. congruence.
    + split; simpl.
      * intros k [= <-]. exists AtCheck. apply list_lookup_insert_eq.
        by eapply lookup_lt_Some.
      * intros k sq Hk. updated Hk; [done|].
        destruct (inv_in_script s Hinv k sq Hk) as [Hl _]. congruence.
      * apply (inv_marker s Hinv).
      * intros Hm. destruct (inv_no_marker s Hinv Hm) as (Hall & _ & Hperf).
        repeat split; [| done |].
        -- intros k p Hk. updated Hk; [by subst | eauto].
        -- intros Hnone. apply Hperf. intros k Hk. apply (Hnone k).
           rewrite list_lookup_insert_ne; [done|]. intros <-. congruence.
  - (* inside the script *)
    destruct (inv_in_script s Hinv i sp Hp) as [Hlock Hok].
    assert (Hothers : ∀ k sq, i ≠ k → procs s !! k ≠ Some (InScript sq)).
    { intros k sq Hne Hk. apply Hne. by eapply holder_unique. }
    assert (Hlt : (i < List.length (procs s))%nat) by by eapply lookup_lt_Some.
    destruct sp as [| | | |r]; simpl in Hok.
    + (* the test for the marker *)
      split; simpl.
      * intros k Hk. rewrite Hlock in Hk. injection Hk as <-.
        eexists. by apply list_lookup_insert_eq.
      * intros k sq Hk. updated Hk; [| by destruct (Hothers k sq)].
        split; [done|]. by destruct (marker (dir s)) eqn:Hm.
      * apply (inv_marker s Hinv).
      * intros Hm. destruct (inv_no_marker s Hinv Hm) as (Hall & _ & Hperf).
        repeat split.
        -- intros k p Hk. updated Hk; [by subst | eauto].
        -- intros Hl. congruence.
        -- intros Hnone. apply Hperf. intros k Hk.
           destruct (decide (i = k)) as [<-|Hne]; [congruence|].
           by destruct (Hothers k AtWriteMarker).
    + (* [tar] *)
      rewrite Htar. split; simpl.
      * intros k Hk. rewrite Hlock in Hk. injection Hk as <-.
        eexists. by apply list_lookup_insert_eq.
      * intros k sq Hk. updated Hk; [| by destruct (Hothers k sq)].
        done.
      * intros Hm. congruence.
      * intros Hm. destruct (inv_no_marker s Hinv Hm) as (Hall & _ & Hperf).
        repeat split.
        -- intros k p Hk. updated Hk; [by subst | eauto].
        -- intros Hl. congruence.
        -- intros Hnone. apply Hperf. intros k Hk.
           destruct (decide (i = k)) as [<-|Hne]; [congruence|].
           by destruct (Hothers k AtWriteMarker).
    + (* [conda-unpack] *)
      destruct Hok as [Hm Hu].
      destruct (inv_no_marker s Hinv Hm) as (Hall & _ & Hperf).
      assert (Hnil : performers s = []).
      { apply Hperf. intros k Hk.
        destruct (decide (i = k)) as [<-|Hne]; [congruence|].
        by destruct (Hothers k AtWriteMarker). }
      rewrite Hunpack. split; simpl.
      * intros k Hk. rewrite Hlock in Hk. injection Hk as <-.
        eexists. by apply list_lookup_insert_eq.
      * intros k sq Hk. updated Hk; [| by destruct (Hothers k sq)].
        by rewrite Hnil.
      * intros Hm'. congruence.
      * intros _. repeat split.
        -- intros k p Hk. updated Hk; [by subst | eauto].
        -- intros Hl. congruence.
        -- intros Hnone. destruct (Hnone i). by apply list_lookup_insert_eq.
    + (* the marker is written *)
      destruct Hok as (Hm & Hu & Hr & Hperf).
      split; simpl.
      * intros k Hk. rewrite Hlock in Hk. injection Hk as <-.
        eexists. by apply list_lookup_insert_eq.
      * intros k sq Hk. updated Hk; [| by destruct (Hothers k sq)].
        done.
      * intros _. by rewrite Hu, Hr, Hperf.
      * done.
    + (* the lock is released *)
      destruct r as [f|]; [done|].
      split; simpl.
      * done.
      * intros k sq Hk. updated Hk. by destruct (Hothers k sq).
      * apply (inv_marker s Hinv).
      * intros Hm. congruence.
  - (* [bin/activate] *)
    assert (Hm : marker (dir s) = true) by by eapply beyond_script_marker.
    split; simpl.
    + intros k Hk. destruct (inv_lock_held s Hinv k Hk) as [sq Hsq].
      exists sq. rewrite list_lookup_insert_ne; [done|]. intros <-. congruence.
    + intros k sq Hk. updated Hk; [by destruct (activate_ok c)|].
      by apply (inv_in_script s Hinv).
    + apply (inv_marker s Hinv).
    + intros Hm'. congruence.
  - (* the command *)
    assert (Hm : marker (dir s) = true) by by eapply beyond_script_marker.
    split; simpl.
    + intros k Hk. destruct (inv_lock_held s Hinv k Hk) as [sq Hsq].
      exists sq. rewrite list_lookup_insert_ne; [done|]. intros <-. congruence.
    + intros k sq Hk. updated Hk. by apply (inv_in_script s Hinv).
    + apply (inv_marker s Hinv).
    + intros Hm'. congruence.
Qed.

Lemma run_schedule_inv a sched s : valid a → inv s → inv (run_schedule a sched s).
Proof.
  intros Hvalid. unfold run_schedule. revert s.
  induction sched as [|c sched IH]; intros s Hinv; simpl; [done|].
  apply IH. by apply step_inv.
Qed.

Lemma performers_at_most_one s : inv s → (List.length (performers s) ≤ 1)%nat.
Proof.
  intros Hinv. destruct (marker (dir s)) eqn:Hm.
  { destruct (inv_marker s Hinv Hm) as [_ ->]. lia. }
  destruct (inv_no_marker s Hinv Hm) as (_ & _ & Hperf).
  destruct (lock s) as [i|] eqn:Hlock.
  - destruct (inv_lock_held s Hinv i Hlock) as [sp Hi].
    assert (sp = AtWriteMarker ∨ sp ≠ AtWriteMarker) as [->|Hsp]
      by (destruct sp; (by left) || (by right)).
    + destruct (inv_in_script s Hinv i _ Hi) as [_ (_ & _ & _ & ->)]. simpl. lia.
    + rewrite Hperf; [simpl; lia|]. intros j Hj.
      assert (i = j) as <- by by eapply holder_unique. congruence.
  - rewrite Hperf; [simpl; lia|]. intros j Hj.
    destruct (inv_in_script s Hinv j _ Hj) as [Hl _]. congruence.
Qed.

Lemma finished_marker s :
  inv s → procs s ≠ [] → all_finished s = true → marker (dir s) = true.
Proof.
  intros Hinv Hne Hfin. destruct (marker (dir s)) eqn:Hm; [done|].
  destruct (inv_no_marker s Hinv Hm) as (_ & Hfree & _).
  unfold all_finished in Hfin. rewrite forallb_forall in Hfin.
  assert (Hnone : lock s = None).
  { destruct (lock s) as [i|] eqn:Hlock; [|done].
    destruct (inv_lock_held s Hinv i Hlock) as [sp Hi].
    apply list_elem_of_lookup_2, list_elem_of_In, Hfin in Hi. done. }
  destruct (procs s !! 0%nat) as [p|] eqn:Hp.
  - pose proof (Hfree Hnone _ _ Hp) as ->.
    apply list_elem_of_lookup_2, list_elem_of_In, Hfin in Hp. done.
  - destruct (procs s); [done | discriminate Hp].
Qed.

Lemma passed_ready s i p :
  inv s → procs s !! i = Some p → passed p = true → dir s = ready.
Proof.
  intros Hinv Hi Hp. apply (inv_marker s Hinv).
  destruct p as [|[| | | |[f|]]| | | |]; try done;
    try (by eapply beyond_script_marker).
  by destruct (inv_in_script s Hinv i _ Hi) as [_ Hok].
Qed.

(** C1.  Let [n ≥ 1] invocations run against the same fresh target
    directory with an archive on which [tar] and [conda-unpack]
    succeed, in any interleaving of their steps, with any waits for the
    lock expiring and any outcomes of activation and of the commands.
    At every moment at most one invocation has completed [tar] and
    [conda-unpack]; once all invocations have ended exactly one has;
    and whenever an invocation is past the marker test with nothing
    left to unpack (it saw the marker or wrote it), the directory is
    fully unpacked and relocated and carries the marker. *)
Theorem one_invocation_unpacks (a : archive) (n : nat) (sched : list choice) :
  valid a →
  (1 ≤ n)%nat →
  let s := run_schedule a sched (init n) in
  (List.length (performers s) ≤ 1)%nat
  ∧ (all_finished s = true → ∃ i, performers s = [i])
  ∧ (∀ i p, procs s !! i = Some p → passed p = true → dir s = ready).
Proof.
  intros Hvalid Hn s.
  assert (Hinv : inv s) by (apply run_schedule_inv; [done | apply inv_init]).
  split; [| split].
  - by apply performers_at_most_one.
  - intros Hfin.
    assert (Hm : marker (dir s) = true).
    { apply finished_marker; [done | | done]. intros Hnil.
      pose proof (run_schedule_length a sched (init n)) as Hlen.
      fold s in Hlen. rewrite Hnil in Hlen. simpl in Hlen.
      rewrite length_replicate in Hlen. lia. }
    destruct (inv_marker s Hinv Hm) as [_ Hlen].
    destruct (performers s) as [|i [|j l]]; try done. by exists i.
  - intros i p. by apply passed_ready.
Qed.

Lemma one_invocation_unpacks_witness :
  let s := run_schedule valid_archive sample_schedule (init 3) in
  (∃ i, performers s = [i]) ∧ dir s = ready.
Proof.
  intros s.
  destruct (one_invocation_unpacks valid_archive 3 sample_schedule
              (conj eq_refl eq_refl) ltac:(lia)) as (_ & Hone & Hready).
  split.
  - apply Hone. vm_compute. reflexivity.
  - apply (Hready 0%nat (Done 0)); vm_compute; reflexivity.
Defined.

(** The sample schedule: the second invocation unpacks, the third gives
    up waiting for the lock, the first finds the marker; both commands
    run. *)
Example sample_schedule_outcome :
  run_schedule valid_archive sample_schedule (init 3)
  = System ready None [Done 0; Done 0; Failed LockTimeout] [1%nat].
Proof. vm_compute. reflexivity. Qed.

(** *** The two embeddings of the script agree *)

Lemma step_in_script a c s sp :
  procs s !! who c = Some (InScript sp) →
  (who c < List.length (procs s))%nat
  ∧ match sp with
    | AtCheck =>
        procs (step a c s) !! who c
        = Some (InScript (if marker (dir s) then AtExit None else AtTar))
        ∧ dir (step a c s) = dir s
    | AtTar =>
        procs (step a c s) !! who c
        = Some (InScript (if tar_ok a then AtCondaUnpack
                          else AtExit (Some ExtractionFailure)))
        ∧ dir (step a c s) = Target (tar_ok a) false (marker (dir s))
    | AtCondaUnpack =>
        procs (step a c s) !! who c
        = Some (InScript (if conda_unpack_ok a then AtWriteMarker
                          else AtExit (Some RelocationFailure)))
        ∧ dir (step a c s)
          = (if conda_unpack_ok a
             then Target (unpacked (dir s)) true (marker (dir s))
             else dir s)
    | AtWriteMarker =>
        procs (step a c s) !! who c = Some (InScript (AtExit None))
        ∧ dir (step a c s) = Target (unpacked (dir s)) (relocated (dir s)) true
    | AtExit _ => True
    end.
Proof.
  intros Hp.
  assert (Hlt : (who c < List.length (procs s))%nat) by by eapply lookup_lt_Some.
  split; [done|]. unfold step. rewrite Hp.
  destruct sp; try done; simpl.
  - by rewrite list_lookup_insert_eq.
  - destruct (tar_ok a); simpl; by rewrite list_lookup_insert_eq.
  - destruct (conda_unpack_ok a); simpl; by rewrite list_lookup_insert_eq.
  - by rewrite list_lookup_insert_eq.
Qed.

(** The steps of the holder from the marker test to the [exit] of the
    script leave the directory as [untar_script] computes it, and end at
    [exit 0] exactly when [untar_script] returns status 0. *)
Lemma script_steps_agree a c s env_name unpack_to :
  procs s !! who c = Some (InScript AtCheck) →
  ∃ k r, (k ≤ 4)%nat
    ∧ procs (run_schedule a (replicate k c) s) !! who c
      = Some (InScript (AtExit r))
    ∧ dir (run_schedule a (replicate k c) s)
      = (untar_script a env_name unpack_to (dir s)).1.2
    ∧ (r = None ↔ (untar_script a env_name unpack_to (dir s)).2 = 0).
Proof.
  intros Hp0.
  destruct (step_in_script a c s _ Hp0) as (_ & Hp1 & Hd1).
  unfold untar_script.
  destruct (marker (dir s)) eqn:Hm; simpl.
  { exists 1%nat, None. split; [lia|]. simpl. rewrite Hp1, Hd1.
    repeat split; congruence. }
  destruct (step_in_script a c _ _ Hp1) as (_ & Hp2 & Hd2).
  rewrite Hd1, Hm in Hd2.
  destruct (tar_ok a) eqn:Ht; simpl.
  2: { exists 2%nat, (Some ExtractionFailure). split; [lia|]. simpl.
       rewrite Hp2, Hd2. repeat split; congruence. }
  destruct (step_in_script a c _ _ Hp2) as (_ & Hp3 & Hd3).
  rewrite Hd2 in Hd3. simpl in Hd3.
  destruct (conda_unpack_ok a) eqn:Hu; simpl.
  2: { exists 3%nat, (Some RelocationFailure). split; [lia|]. simpl.
       rewrite Hp3, Hd3. repeat split; congruence. }
  destruct (step_in_script a c _ _ Hp3) as (_ & Hp4 & Hd4).
  rewrite Hd3 in Hd4. simpl in Hd4.
  exists 4%nat, None. split; [lia|]. simpl.
  rewrite Hp4, Hd4. repeat split; congruence.
Qed.

End SharedFacts.

(** * Further properties *)

(** ** The import scanner: how the scopes relate *)

Module ScopeFacts.
Import Py Scanner Ident.

(** The queue is visited first, in its order. *)
Lemma walk_queue_starts todo : ∃ later, walk_queue todo = (todo ++ later)%list.
Proof.
  funelim (walk_queue todo); simp walk_queue.
  - by exists [].
  - destruct H as [later Hlater]. rewrite Hlater.
    exists (iter_child_nodes n ++ later)%list. by rewrite <- app_assoc.
Qed.

Lemma walk_starts code :
  ∃ deeper, walk code = (code :: body code ++ deeper)%list.
Proof.
  unfold walk. simp walk_queue. simpl.
  destruct (walk_queue_starts (iter_child_nodes code)) as [deeper ->].
  by exists deeper.
Qed.

(** The accumulator of the loop is only ever extended. *)
Lemma collect_loop stmts acc :
  for_each (fun deps s => let* i := get_stmt_imports s in Ok (deps ++ i)%list)
           stmts acc
  = let* found := collect stmts in Ok (acc ++ found)%list.
Proof.
  unfold collect. revert acc.
  induction stmts as [|s stmts IH]; intros acc; simpl.
  - by rewrite app_nil_r.
  - destruct (get_stmt_imports s) as [i|e]; simpl; [|done].
    rewrite (IH (acc ++ i)%list), (IH i).
    destruct (for_each _ stmts []) as [found|e]; simpl; [|done].
    by rewrite app_assoc.
Qed.

Lemma collect_cons s stmts :
  collect (s :: stmts)
  = let* i := get_stmt_imports s in
    let* found := collect stmts in Ok (i ++ found)%list.
Proof.
  unfold collect at 1. simpl.
  destruct (get_stmt_imports s) as [i|e]; simpl; [|done].
  apply collect_loop.
Qed.

Lemma collect_app l1 l2 :
  collect (l1 ++ l2)
  = let* r1 := collect l1 in let* r2 := collect l2 in Ok (r1 ++ r2)%list.
Proof.
  induction l1 as [|s l1 IH]; simpl.
  - change (collect []) with (Ok (@nil string)). simpl. by destruct (collect l2).
  - rewrite !collect_cons, IH.
    destruct (get_stmt_imports s) as [i|e]; simpl; [|done].
    destruct (collect l1) as [r1|e]; simpl; [|done].
    destruct (collect l2) as [r2|e]; simpl; [|done].
    by rewrite app_assoc.
Qed.

(** X1.  For a module as [ast.parse] returns it, a whole-program scan
    that succeeds starts with exactly the identifiers of the top-level
    scan, in the same order, followed by those of the nested
    statements; so the top-level scan succeeds whenever the
    whole-program scan does. *)
Theorem full_scan_extends_toplevel (code : node) (full : list string) :
  node_kind code = Module →
  analyze_full code = Ok full →
  ∃ top deeper,
    analyze_toplevel code = Ok top ∧ full = (top ++ deeper)%list.
Proof.
  intros Hroot. unfold analyze_full, analyze_toplevel.
  destruct (walk_starts code) as [deeper ->].
  rewrite collect_cons. unfold get_stmt_imports at 1. rewrite Hroot. simpl.
  rewrite collect_app.
  destruct (collect (body code)) as [top|e]; simpl; [|done].
  destruct (collect deeper) as [more|e]; simpl; [|done].
  intros [= <-]. by exists top, more.
Qed.

Lemma full_scan_extends_toplevel_witness :
  ∃ top deeper,
    analyze_toplevel sample_plain_unit = Ok top
    ∧ ["os"; "sys"; "a"; "numpy"] = (top ++ deeper)%list.
Proof.
  apply (full_scan_extends_toplevel sample_plain_unit).
  - reflexivity.
  - vm_compute. reflexivity.
Defined.

(** *** Several sources *)

Lemma scan_source_acc sc acc code :
  scan_source sc acc code
  = let* found := scan_source sc [] code in Ok (acc ++ found)%list.
Proof.
  destruct sc as [|f|]; simpl.
  - by destruct (analyze_toplevel code).
  - destruct (analyze_function code f) as [[deps|]|e]; by simpl.
  - by destruct (analyze_full code).
Qed.

Lemma scan_loop_acc sc codes acc :
  for_each (scan_source sc) codes acc
  = let* found := scan_sources sc codes in Ok (acc ++ found)%list.
Proof.
  unfold scan_sources. revert acc.
  induction codes as [|code codes IH]; intros acc; simpl.
  - by rewrite app_nil_r.
  - rewrite (scan_source_acc sc acc code).
    destruct (scan_source sc [] code) as [found|e]; simpl; [|done].
    rewrite (IH (acc ++ found)%list), (IH found).
    destruct (for_each _ codes []) as [more|e]; simpl; [|done].
    by rewrite app_assoc.
Qed.

Lemma scan_sources_app (sc : scope) (codes1 codes2 : list node) :
  scan_sources sc (codes1 ++ codes2)
  = let* l1 := scan_sources sc codes1 in
    let* l2 := scan_sources sc codes2 in
    Ok (l1 ++ l2)%list.
Proof.
  induction codes1 as [|code codes1 IH]; simpl.
  - change (scan_sources sc []) with (Ok (@nil string)). simpl.
    by destruct (scan_sources sc codes2).
  - unfold scan_sources at 1 2. simpl.
    destruct (scan_source sc [] code) as [found|e]; simpl; [|done].
    rewrite !scan_loop_acc, IH.
    destruct (scan_sources sc codes1) as [l1|e]; simpl; [|done].
    destruct (scan_sources sc codes2) as [l2|e]; simpl; [|done].
    by rewrite app_assoc.
Qed.

(** X2.  Scanning several sources yields the identifiers of each source
    in the order of the sources, duplicates kept: the scan of a list of
    sources followed by another list is the scan of the first list
    followed by the scan of the second, and the first source that
    raises decides the exception. *)
Theorem scan_sources_concatenates (sc : scope) (codes1 codes2 : list node) :
  scan_sources sc (codes1 ++ codes2)
  = let* l1 := scan_sources sc codes1 in
    let* l2 := scan_sources sc codes2 in
    Ok (l1 ++ l2)%list.
Proof. apply scan_sources_app. Qed.

(** *** The routine scope *)

Lemma find_app_found {A} (f : A → bool) l1 l2 x :
  find f l1 = Some x → find f (l1 ++ l2) = Some x.
Proof.
  induction l1 as [|a l1 IH]; simpl; [done|]. by destruct (f a).
Qed.

(** X3.  In the routine scope a definition in the module body is
    chosen before any definition of the same name nested inside other
    statements, whatever their order in the source: the scan is the
    whole-program scan of the first matching definition of the body. *)
Theorem routine_scope_prefers_toplevel
    (code : node) (func_name : string) (def : node) :
  node_kind code = Module →
  find (is_function_named func_name) (body code) = Some def →
  analyze_function code func_name
  = let* deps := analyze_full def in Ok (Some deps).
Proof.
  intros Hroot Hfind. unfold analyze_function.
  destruct (walk_starts code) as [deeper ->]. simpl.
  unfold is_function_named at 1. rewrite Hroot.
  by rewrite (find_app_found _ _ _ _ Hfind).
Qed.

Lemma routine_scope_prefers_toplevel_witness :
  analyze_function sample_shadowed_unit "f" = Ok (Some ["sys"]).
Proof.
  rewrite (routine_scope_prefers_toplevel sample_shadowed_unit "f"
             (Node (FunctionDef "f")
                [Node Other []; Node (Import ["sys"]) [Node Other []]])).
  - vm_compute. reflexivity.
  - reflexivity.
  - reflexivity.
Defined.

(** *** Identifiers *)

Lemma before_dot_no_dot s : has_dot (Str.before_dot s) = false.
Proof.
  induction s as [|c s IH]; simpl; [done|].
  destruct (Ascii.eqb c ".") eqn:Hc; simpl; [done|]. by rewrite Hc.
Qed.

Lemma strip_dots_no_dot pkg x : strip_dots pkg = Ok x → has_dot x = false.
Proof.
  unfold strip_dots. destruct (Str.startswith _ _); [done|].
  intros [= <-]. apply before_dot_no_dot.
Qed.

Lemma import_names_no_dot names acc l :
  for_each (fun imports a => let* x := strip_dots a in Ok (imports ++ [x])%list)
           names acc = Ok l →
  Forall (fun x => has_dot x = false) acc →
  Forall (fun x => has_dot x = false) l.
Proof.
  revert acc. induction names as [|a names IH]; intros acc; simpl.
  - by intros [= <-].
  - destruct (strip_dots a) as [x|e] eqn:Ha; simpl; [|done].
    intros Hl Hacc. apply (IH _ Hl). apply Forall_app. split; [done|].
    constructor; [by eapply strip_dots_no_dot | constructor].
Qed.

Lemma get_stmt_imports_no_dot stmt l :
  get_stmt_imports stmt = Ok l → Forall (fun x => has_dot x = false) l.
Proof.
  unfold get_stmt_imports.
  destruct (node_kind stmt) as [|names|m lvl|f|]; try (intros [= <-]; constructor).
  - intros H. by eapply import_names_no_dot.
  - destruct (negb _); [done|]. destruct m as [m|]; [|done]. simpl.
    destruct (strip_dots m) as [x|e] eqn:Hm; simpl; [|done].
    intros [= <-]. constructor; [by eapply strip_dots_no_dot | constructor].
Qed.

Lemma collect_no_dot stmts l :
  collect stmts = Ok l → Forall (fun x => has_dot x = false) l.
Proof.
  revert l. induction stmts as [|s stmts IH]; intros l.
  - intros [= <-]. constructor.
  - rewrite collect_cons.
    destruct (get_stmt_imports s) as [i|e] eqn:Hs; simpl; [|done].
    destruct (collect stmts) as [found|e]; simpl; [|done].
    intros [= <-]. apply Forall_app. split; [by eapply get_stmt_imports_no_dot|].
    by apply IH.
Qed.

Lemma scan_source_no_dot sc code l :
  scan_source sc [] code = Ok l → Forall (fun x => has_dot x = false) l.
Proof.
  destruct sc as [|f|]; simpl.
  - destruct (analyze_toplevel code) as [r|e] eqn:H; simpl; [|done].
    intros [= <-]. by eapply collect_no_dot.
  - unfold analyze_function.
    destruct (find _ _) as [fn|]; simpl; [|done].
    destruct (analyze_full fn) as [r|e] eqn:H; simpl; [|done].
    intros [= <-]. by eapply collect_no_dot.
  - destruct (analyze_full code) as [r|e] eqn:H; simpl; [|done].
    intros [= <-]. by eapply collect_no_dot.
Qed.

(** X4.  Every identifier a scan yields, in any scope and from any
    number of sources, is a top-level module name: it contains no
    dot. *)
Theorem scanned_identifiers_are_toplevel
    (sc : scope) (codes : list node) (found : list string) (x : string) :
  scan_sources sc codes = Ok found →
  In x found →
  has_dot x = false.
Proof.
  revert found. induction codes as [|code codes IH]; intros found.
  - intros [= <-] [].
  - change (code :: codes) with ([code] ++ codes)%list.
    rewrite scan_sources_app.
    unfold scan_sources at 1. simpl.
    destruct (scan_source sc [] code) as [l1|e] eqn:H1; simpl; [|done].
    destruct (scan_sources sc codes) as [l2|e] eqn:H2; simpl; [|done].
    intros [= <-] [Hx | Hx]%in_app_or.
    + apply scan_source_no_dot in H1. rewrite Forall_forall in H1.
      apply H1. by apply list_elem_of_In.
    + by apply (IH l2).
Qed.

Lemma scanned_identifiers_are_toplevel_witness : has_dot "numpy" = false.
Proof.
  apply (scanned_identifiers_are_toplevel Full [sample_plain_unit]
           ["os"; "sys"; "a"; "numpy"] "numpy").
  - vm_compute. reflexivity.
  - simpl. auto.
Defined.

End ScopeFacts.

(** ** The export of the resolved environment *)

Module ExporterFacts.
Import Py Resolver Exporter.

(** *** The pip section of the export *)

Lemma pop_pip_out_of_range m : ∀ j l acc,
  (0 < m)%nat → (List.length l < j + m)%nat →
  pop_pip (seq j m) l acc = None.
Proof.
  induction m as [|m IH]; intros j l acc Hm Hlen; [lia|]. simpl.
  destruct (l !! j) as [d|] eqn:Hj; [|done].
  apply lookup_lt_Some in Hj.
  destruct d as [s|pip].
  - apply IH; lia.
  - apply IH; [lia|]. rewrite length_delete by (by apply lookup_lt_is_Some_2). lia.
Qed.

Lemma pop_pip_suffix suffix : ∀ front acc,
  Forall (fun d => is_name d = true) front →
  match pop_pip (seq (List.length front) (List.length suffix))
                (front ++ suffix) acc with
  | Some (conda_env, pip_env) =>
      Forall (fun d => is_name d = true) conda_env
      ∧ (((front ++ suffix)%list = conda_env ∧ pip_env = acc)
         ∨ (front ++ suffix)%list = (conda_env ++ [PipSection pip_env])%list)
  | None =>
      ∃ front' pip x rest,
        (front ++ suffix)%list = (front' ++ PipSection pip :: x :: rest)%list
        ∧ Forall (fun d => is_name d = true) front'
  end.
Proof.
  induction suffix as [|d suffix IH]; intros front acc Hfront; simpl.
  - rewrite app_nil_r. auto.
  - rewrite lookup_app_r by lia. rewrite Nat.sub_diag. simpl.
    destruct d as [s|pip].
    + specialize (IH (front ++ [Name s])%list acc).
      rewrite <- app_assoc, length_app in IH. simpl in IH.
      rewrite Nat.add_1_r in IH. apply IH.
      apply Forall_app. split; [done|]. by constructor.
    + assert (Hdel : delete (List.length front) (front ++ PipSection pip :: suffix)%list
                     = (front ++ suffix)%list).
      { clear. induction front as [|x front IHf]; simpl; [done|]. by rewrite IHf. }
      rewrite Hdel. destruct suffix as [|x suffix].
      * simpl. rewrite app_nil_r. auto.
      * rewrite (pop_pip_out_of_range (List.length (x :: suffix)));
          [| simpl; lia | rewrite length_app; simpl; lia].
        by exists front, pip, x, suffix.
Qed.

Lemma split_dependencies_cases (deps : list dep_item) :
  match split_dependencies deps with
  | Some (conda_env, pip_env) =>
      Forall (fun d => is_name d = true) conda_env
      ∧ ((deps = conda_env ∧ pip_env = [])
         ∨ deps = (conda_env ++ [PipSection pip_env])%list)
  | None =>
      ∃ front pip x rest,
        deps = (front ++ PipSection pip :: x :: rest)%list
        ∧ Forall (fun d => is_name d = true) front
  end.
Proof.
  unfold split_dependencies.
  apply (pop_pip_suffix deps [] []). constructor.
Qed.

(** X5.  The loop that takes the pip section out of the exported
    dependencies succeeds exactly when the list holds no pip dictionary
    or its first pip dictionary is the last element: it then returns
    the strings before it and the pip list.  A pip dictionary followed
    by any element ends in [IndexError]. *)
Theorem split_dependencies_spec (deps : list dep_item) :
  match split_dependencies deps with
  | Some (conda_env, pip_env) =>
      Forall (fun d => is_name d = true) conda_env
      ∧ ((deps = conda_env ∧ pip_env = [])
         ∨ deps = (conda_env ++ [PipSection pip_env])%list)
  | None =>
      ∃ front pip x rest,
        deps = (front ++ PipSection pip :: x :: rest)%list
        ∧ Forall (fun d => is_name d = true) front
  end.
Proof. apply split_dependencies_cases. Qed.

(** *** [--pkg-mapping] *)

Lemma split_on_eq_spec a :
  split_on "=" a ≠ []
  ∧ Forall (fun p => has_eq p = false) (split_on "=" a)
  ∧ a = join_eq (split_on "=" a).
Proof.
  induction a as [|c a (Hne & Hall & Hjoin)]; simpl.
  - repeat split; [done | by repeat constructor].
  - destruct (Ascii.eqb_spec c "=") as [->|Hc].
    + split; [done|]. split; [by constructor|].
      destruct (split_on "=" a) as [|p ps]; [done|].
      rewrite Hjoin at 1. reflexivity.
    + destruct (split_on "=" a) as [|p ps]; [done|].
      split; [done|]. inversion Hall as [|? ? Hp Hps]; subst.
      split.
      * constructor; [|done]. simpl.
        destruct (Ascii.eqb_spec c "="); [done|]. done.
      * by destruct ps.
Qed.

Lemma split_on_eq_app i rest :
  has_eq i = false →
  split_on "=" (i ++ String "=" rest) = i :: split_on "=" rest.
Proof.
  induction i as [|c i IH]; simpl; [done|].
  destruct (Ascii.eqb c "=") eqn:Hc; simpl; [done|].
  intros Hi. change (split_on "=" (i ++ String "=" rest))
    with (split_on "=" (i ++ String "=" rest)).
  by rewrite (IH Hi).
Qed.

Lemma split_on_eq_plain n : has_eq n = false → split_on "=" n = [n].
Proof.
  induction n as [|c n IH]; simpl; [done|].
  destruct (Ascii.eqb c "=") eqn:Hc; simpl; [done|].
  intros Hn. by rewrite (IH Hn).
Qed.

(** X6.  A [--pkg-mapping] argument is accepted exactly when it holds
    one [=]: it then maps the text before the [=] to the text after
    it.  An argument without [=] and an argument with two or more (such
    as [IMPORT=NAME=1.0]) are a [ValueError]. *)
Theorem pkg_mapping_one_equals (a i n : string) :
  parse_mapping a = Some (i, n)
  ↔ a = (i ++ "=" ++ n)%string ∧ has_eq i = false ∧ has_eq n = false.
Proof.
  unfold parse_mapping. split.
  - destruct (split_on_eq_spec a) as (_ & Hall & Hjoin).
    destruct (split_on "=" a) as [|p [|q [|r ps]]]; try done.
    intros [= -> ->]. simpl in Hjoin.
    inversion Hall as [|? ? Hi Hrest]; subst.
    inversion Hrest as [|? ? Hn _]; subst. done.
  - intros (-> & Hi & Hn).
    change (i ++ "=" ++ n)%string with (i ++ String "=" n)%string.
    by rewrite split_on_eq_app, split_on_eq_plain.
Qed.

Lemma pkg_mapping_one_equals_witness :
  parse_mapping "yaml=pyyaml" = Some ("yaml", "pyyaml")
  ∧ has_eq "yaml" = false.
Proof.
  split.
  - apply (pkg_mapping_one_equals "yaml=pyyaml" "yaml" "pyyaml"). done.
  - reflexivity.
Defined.

(** *** Resolution only adds, and does not look at what was added *)

Lemma merge_no_pkgs st : merge no_pkgs st = st.
Proof.
  destruct st as [c p]. unfold merge. simpl.
  f_equal; apply (left_id_L ∅ (∪)).
Qed.

Lemma merge_assoc r1 r2 st : merge (merge r1 r2) st = merge r1 (merge r2 st).
Proof. unfold merge. simpl. f_equal; symmetry; apply (assoc_L (∪)). Qed.

Lemma choose_dep_frame conda_env pip_env st pkg required :
  choose_dep conda_env pip_env st pkg required
  = framed (choose_dep conda_env pip_env no_pkgs pkg required) st.
Proof.
  unfold choose_dep, framed.
  destruct (first_match conda_env pkg) as [a|].
  { unfold merge. simpl.
    do 2 f_equal;
      first [symmetry; apply (left_id_L ∅ (∪)) | by rewrite (right_id_L ∅ (∪))]. }
  destruct (first_match pip_env pkg) as [a|].
  { unfold merge. simpl.
    do 2 f_equal;
      first [symmetry; apply (left_id_L ∅ (∪)) | by rewrite (right_id_L ∅ (∪))]. }
  destruct required; [done|]. by rewrite merge_no_pkgs.
Qed.

Section Interpreter.
Variable builtin : list string.
Variable PKG_MAP : gmap string string.
Variable module_file : string → result (option string).
Variable overrides : gmap string string.

Abbreviation search := (search_pkg builtin PKG_MAP module_file overrides).

Lemma search_pkg_frame conda_env pip_env st pkg :
  search conda_env pip_env st pkg
  = framed (search conda_env pip_env no_pkgs pkg) st.
Proof.
  unfold search_pkg. case_bool_decide.
  { simpl. by rewrite merge_no_pkgs. }
  destruct (overrides !! pkg) as [name|]; [apply choose_dep_frame|].
  rewrite (choose_dep_frame _ _ st pkg).
  destruct (choose_dep conda_env pip_env no_pkgs pkg true) as [r|[]]; try done.
  simpl. destruct (module_file pkg) as [file|e]; simpl; [|done].
  apply choose_dep_frame.
Qed.

(** A loop of framed steps is framed, and does not depend on the
    order of its elements. *)
Section Loop.
Variable step : pkgs → string → result pkgs.
Hypothesis step_frame : ∀ st x, step st x = framed (step no_pkgs x) st.

Lemma loop_frame l st :
  for_each step l st = framed (for_each step l no_pkgs) st.
Proof.
  revert st. induction l as [|x l IH]; intros st; simpl.
  - by rewrite merge_no_pkgs.
  - rewrite (step_frame st x).
    destruct (step no_pkgs x) as [r|e]; simpl; [|done].
    rewrite (IH (merge r st)), (IH r).
    destruct (for_each step l no_pkgs) as [rl|e]; simpl; [|done].
    by rewrite merge_assoc.
Qed.

Lemma loop_cons x l :
  for_each step (x :: l) no_pkgs
  = match step no_pkgs x, for_each step l no_pkgs with
    | Ok r, Ok rl => Ok (merge rl r)
    | Raise e, _ => Raise e
    | Ok _, Raise e => Raise e
    end.
Proof.
  simpl. destruct (step no_pkgs x) as [r|e]; simpl; [|done].
  rewrite loop_frame. by destruct (for_each step l no_pkgs).
Qed.

Lemma loop_permutation l1 l2 r :
  l1 ≡ₚ l2 →
  for_each step l1 no_pkgs = Ok r → for_each step l2 no_pkgs = Ok r.
Proof.
  intros Hperm. revert r.
  induction Hperm as [|x l1 l2 _ IH|x y l|l1 l2 l3 _ IH1 _ IH2]; intros r.
  - done.
  - rewrite !loop_cons. destruct (step no_pkgs x) as [rx|e]; [|done].
    destruct (for_each step l1 no_pkgs) as [r1|e] eqn:H1; [|done].
    by rewrite (IH r1).
  - rewrite !loop_cons.
    destruct (step no_pkgs x) as [rx|e], (step no_pkgs y) as [ry|e'];
      try done;
      destruct (for_each step l no_pkgs) as [rl|e'']; try done.
    intros [= <-]. f_equal. rewrite !(merge_assoc rl).
    f_equal. unfold merge. simpl. f_equal; apply (comm_L (∪)).
  - intros H. by apply IH2, IH1.
Qed.

Lemma loop_permutation_eq l1 l2 st :
  l1 ≡ₚ l2 →
  match for_each step l1 st, for_each step l2 st with
  | Ok r1, Ok r2 => r1 = r2
  | Raise _, Raise _ => True
  | _, _ => False
  end.
Proof.
  intros Hperm. rewrite (loop_frame l1), (loop_frame l2).
  destruct (for_each step l1 no_pkgs) as [r1|e1] eqn:H1.
  - by rewrite (loop_permutation _ _ _ Hperm H1).
  - destruct (for_each step l2 no_pkgs) as [r2|e2] eqn:H2; [|done].
    symmetry in Hperm. rewrite (loop_permutation _ _ _ Hperm H2) in H1. done.
Qed.
End Loop.

(** X7.  The outcome of [export_env] does not depend on the order in
    which the sets of imports and of extra packages are iterated:
    for two orders of the same elements, either both runs raise, or
    both return the same document. *)
Theorem export_env_order (imports1 imports2 extra1 extra2 : list string)
    (env : env_export) :
  imports1 ≡ₚ imports2 →
  extra1 ≡ₚ extra2 →
  match export_env_in builtin PKG_MAP module_file imports1 extra1 overrides env,
        export_env_in builtin PKG_MAP module_file imports2 extra2 overrides env
  with
  | inr out1, inr out2 => out1 = out2
  | inl _, inl _ => True
  | _, _ => False
  end.
Proof.
  intros Hi He. unfold export_env_in.
  destruct (split_dependencies _) as [[citems pips]|]; [|done].
  unfold resolve_all.
  pose proof (loop_permutation_eq
                (search_pkg builtin PKG_MAP module_file overrides
                            (names citems) pips)
                (search_pkg_frame (names citems) pips)
                imports1 imports2 no_pkgs Hi) as H1.
  destruct (for_each _ imports1 no_pkgs) as [st1|e1],
           (for_each _ imports2 no_pkgs) as [st2|e2]; try done.
  subst st2. simpl.
  pose proof (loop_permutation_eq
                (fun st pkg => choose_dep (names citems) pips st pkg true)
                (fun st x => choose_dep_frame _ _ st x true)
                extra1 extra2 st1 He) as H2.
  destruct (for_each _ extra1 st1) as [st3|e3],
           (for_each _ extra2 st1) as [st4|e4]; try done.
  subst st4. simpl.
  destruct (choose_dep _ _ st3 "python" false) as [st5|e5]; simpl; [|done].
  by destruct (choose_dep _ _ st5 "pip" false).
Qed.
End Interpreter.

Lemma export_env_order_witness :
  export_env_in sample_builtin sample_pkg_map sample_module_file
                ["yaml"; "requests"; "sys"] [] sample_overrides sample_export
  = export_env_in sample_builtin sample_pkg_map sample_module_file
                  ["sys"; "requests"; "yaml"] [] sample_overrides sample_export.
Proof.
  pose proof (export_env_order sample_builtin sample_pkg_map sample_module_file
                sample_overrides ["yaml"; "requests"; "sys"]
                ["sys"; "requests"; "yaml"] [] [] sample_export) as H.
  destruct (export_env_in _ _ _ ["yaml"; "requests"; "sys"] _ _ _) as [e1|o1] eqn:H1;
    [discriminate H1|].
  destruct (export_env_in _ _ _ ["sys"; "requests"; "yaml"] _ _ _) as [e2|o2] eqn:H2;
    [discriminate H2|].
  f_equal. apply H; [| done].
  apply (Permutation_trans (l' := ["requests"; "yaml"; "sys"])).
  - apply Permutation_swap.
  - apply (Permutation_trans (l' := ["requests"; "sys"; "yaml"])).
    + apply Permutation_skip, Permutation_swap.
    + apply Permutation_swap.
Defined.

(** *** What the exported document holds *)

Lemma first_match_in env pkg a : first_match env pkg = Some a → a ∈ env.
Proof. intros [H _]%find_some. by apply list_elem_of_In. Qed.

Lemma choose_dep_within conda_env pip_env st pkg required st' :
  choose_dep conda_env pip_env st pkg required = Ok st' →
  within conda_env pip_env st → within conda_env pip_env st'.
Proof.
  unfold choose_dep, within. intros H [Hc Hp].
  destruct (first_match conda_env pkg) as [a|] eqn:Ha.
  { injection H as <-. simpl. split; [|done]. intros x.
    rewrite elem_of_union, elem_of_singleton. intros [-> | Hx]; [|auto].
    by eapply first_match_in. }
  destruct (first_match pip_env pkg) as [a|] eqn:Hb.
  { injection H as <-. simpl. split; [done|]. intros x.
    rewrite elem_of_union, elem_of_singleton. intros [-> | Hx]; [|auto].
    by eapply first_match_in. }
  destruct required; [done|]. by injection H as <-.
Qed.

Lemma search_pkg_within builtin PKG_MAP module_file overrides
    conda_env pip_env st pkg st' :
  search_pkg builtin PKG_MAP module_file overrides conda_env pip_env st pkg
  = Ok st' →
  within conda_env pip_env st → within conda_env pip_env st'.
Proof.
  unfold search_pkg. case_bool_decide; [by intros [= <-]|].
  destruct (overrides !! pkg) as [name|]; [apply choose_dep_within|].
  destruct (choose_dep conda_env pip_env st pkg true) as [r|[]] eqn:Hr; try done.
  - intros [= <-]. by eapply choose_dep_within.
  - simpl. destruct (module_file pkg) as [file|e]; simpl; [|done].
    apply choose_dep_within.
Qed.

Lemma for_each_within (step : pkgs → string → result pkgs) conda_env pip_env :
  (∀ st x st', step st x = Ok st' →
               within conda_env pip_env st → within conda_env pip_env st') →
  ∀ l st st', for_each step l st = Ok st' →
              within conda_env pip_env st → within conda_env pip_env st'.
Proof.
  intros Hstep. induction l as [|x l IH]; intros st st'; simpl.
  - by intros [= <-].
  - destruct (step st x) as [st1|e] eqn:H1; simpl; [|done].
    intros H Hw. apply (IH _ _ H). by eapply Hstep.
Qed.

Lemma resolve_all_within builtin PKG_MAP module_file overrides
    conda_env pip_env imports extra st :
  resolve_all builtin PKG_MAP module_file overrides conda_env pip_env
              imports extra = Ok st →
  within conda_env pip_env st.
Proof.
  unfold resolve_all.
  destruct (for_each _ imports no_pkgs) as [st1|e] eqn:H1; simpl; [|done].
  destruct (for_each _ extra st1) as [st2|e] eqn:H2; simpl; [|done].
  destruct (choose_dep _ _ st2 "python" false) as [st3|e] eqn:H3; simpl; [|done].
  intros H4.
  apply (choose_dep_within _ _ _ _ _ _ H4).
  apply (choose_dep_within _ _ _ _ _ _ H3).
  apply (for_each_within _ _ _ (fun st x st' => choose_dep_within _ _ st x true st')
           _ _ _ H2).
  apply (for_each_within _ _ _ (search_pkg_within _ _ _ _ _ _) _ _ _ H1).
  split; intros a Ha; by apply not_elem_of_empty in Ha.
Qed.

Lemma names_elem items a : a ∈ names items ↔ Name a ∈ items.
Proof.
  unfold names. rewrite list_elem_of_omap. split.
  - intros ([s|p] & Hin & [= <-]). done.
  - intros H. by exists (Name a).
Qed.

Lemma sorted_spec (s : gset string) :
  Sorted String.le (sorted s) ∧ NoDup (sorted s) ∧ ∀ a, a ∈ sorted s ↔ a ∈ s.
Proof.
  unfold sorted. split; [apply Sorted_merge_sort, _|]. split.
  - rewrite merge_sort_Permutation. apply NoDup_elements.
  - intros a. by rewrite merge_sort_Permutation, elem_of_elements.
Qed.

(** X8.  In the document [export_env] returns, the conda packages and
    the pip packages are each a non-empty, sorted list without
    duplicates; every conda package is one of the constraint strings
    of the exported [dependencies] and every pip package one of the
    strings of its pip section; the channels are those of the export;
    and the other keys of the export are kept. *)
Theorem exported_packages_are_installed
    (builtin : list string) (PKG_MAP : gmap string string)
    (module_file : string → result (option string))
    (imports extra : list string) (overrides : gmap string string)
    (env : env_export) (out : exported) :
  export_env_in builtin PKG_MAP module_file imports extra overrides env
  = inr out →
  kept out = others env
  ∧ (∀ chs l, conda out = Some (chs, l) →
       chs = default [] (channels env)
       ∧ l ≠ [] ∧ Sorted String.le l ∧ NoDup l
       ∧ ∀ a, a ∈ l → Name a ∈ default [] (dependencies env))
  ∧ (∀ l, pip out = Some l →
       l ≠ [] ∧ Sorted String.le l ∧ NoDup l
       ∧ ∀ a, a ∈ l →
           ∃ section, PipSection section ∈ default [] (dependencies env)
                      ∧ a ∈ section).
Proof.
  unfold export_env_in.
  pose proof (split_dependencies_cases (default [] (dependencies env))) as Hsplit.
  destruct (split_dependencies _) as [[citems pips]|]; [|done].
  destruct Hsplit as [Hnames Hdeps].
  destruct (resolve_all _ _ _ _ _ _ _ _) as [st|e] eqn:Hres; [|done].
  apply resolve_all_within in Hres as [Hc Hp].
  intros [= <-]. simpl. split; [done|].
  destruct (sorted_spec (conda_pkgs st)) as (Hcs & Hcn & Hce).
  destruct (sorted_spec (pip_pkgs st)) as (Hps & Hpn & Hpe).
  split.
  - intros chs l Hl.
    destruct (sorted (conda_pkgs st)) as [|x xs] eqn:Hsorted; [done|].
    injection Hl as <- <-. repeat split; try done.
    intros a Ha. apply Hce, Hc, names_elem in Ha.
    destruct Hdeps as [[-> _] | ->]; [done|].
    apply elem_of_app. by left.
  - intros l Hl.
    destruct (sorted (pip_pkgs st)) as [|x xs] eqn:Hsorted; [done|].
    injection Hl as <-. repeat split; try done.
    intros a Ha. apply Hpe, Hp in Ha.
    destruct Hdeps as [[_ ->] | ->]; [by apply not_elem_of_nil in Ha|].
    exists pips. split; [|done]. apply elem_of_app. right. by apply list_elem_of_singleton.
Qed.

Lemma exported_packages_are_installed_witness :
  kept (Exported {[ "name" := "base" ]}
                 (Some ["pyyaml==5.4"; "requests==2.25.1"])
                 (Some (["conda-forge"], ["python=3.9.1=hdb3f193_2"])))
  = others sample_export.
Proof.
  assert (Hout : export_env_in sample_builtin sample_pkg_map sample_module_file
                   ["yaml"; "requests"] [] sample_overrides sample_export
                 = inr (Exported {[ "name" := "base" ]}
                          (Some ["pyyaml==5.4"; "requests==2.25.1"])
                          (Some (["conda-forge"], ["python=3.9.1=hdb3f193_2"]))))
    by (vm_compute; reflexivity).
  by destruct (exported_packages_are_installed _ _ _ _ _ _ _ _ Hout) as [H _].
Defined.

(** *** [python] and [pip] *)





(** *** Identifiers that cannot be resolved *)



Example export_sample :
  export_env sample_builtin sample_pkg_map sample_module_file sample_overrides
             ["yaml"; "requests"; "sys"; "yaml"] [] sample_export
  = inr (Exported {[ "name" := "base" ]}
                  (Some ["pyyaml==5.4"; "requests==2.25.1"])
                  (Some (["conda-forge"], ["python=3.9.1=hdb3f193_2"]))).
Proof. vm_compute. reflexivity. Qed.

End ExporterFacts.

(** ** The spec synthesizer: names and the returned specification *)

Module SpecFacts.
Import Py Synth Constraint.

Lemma dot_star_eol_no_newline s : has_newline s = false → dot_star_eol s = true.
Proof.
  induction s as [|c s IH]; simpl; [done|].
  destruct (Ascii.eqb c newline); simpl; [done|]. apply IH.
Qed.

Lemma ends_with_newline_no_newline s :
  has_newline s = false → ends_with_newline s = false.
Proof.
  induction s as [|c s IH]; simpl; [done|].
  destruct (Ascii.eqb c newline) eqn:Hc; simpl; [done|].
  intros Hs. destruct s; [done|]. by apply IH.
Qed.

(** X11.  For a constraint string without line breaks, [only_name]
    returns the part before the first of the characters [!~=<>]: the
    name is a prefix of the constraint, holds none of these characters,
    and what follows it is empty or starts with one of them; a name is
    its own name. *)
Theorem only_name_is_the_prefix (dep : string) :
  has_newline dep = false →
  has_version_char (only_name dep) = false
  ∧ only_name (only_name dep) = only_name dep
  ∧ ∃ rest, dep = (only_name dep ++ rest)%string
            ∧ match rest with
              | EmptyString => True
              | String c _ => is_version_char c = true
              end.
Proof.
  induction dep as [|c dep IH]; simpl.
  - intros _. repeat split. by exists EmptyString.
  - destruct (Ascii.eqb c newline) eqn:Hnl; simpl; [done|]. intros Hdep.
    rewrite (dot_star_eol_no_newline _ Hdep), andb_true_r.
    rewrite (ends_with_newline_no_newline _ Hdep).
    destruct (is_version_char c) eqn:Hc.
    + repeat split. by exists (String c dep).
    + destruct (IH Hdep) as (Hnone & Hidem & rest & Hrest & Hhead).
      simpl. rewrite Hc. simpl. split; [done|]. split.
      * by rewrite Hidem.
      * exists rest. split; [|done].
        change (String c dep = String c (only_name dep ++ rest))%string.
        by rewrite <- Hrest.
Qed.

Lemma only_name_is_the_prefix_witness :
  has_version_char (only_name "numpy>=1.19,<2") = false
  ∧ only_name (only_name "numpy>=1.19,<2") = only_name "numpy>=1.19,<2".
Proof.
  destruct (only_name_is_the_prefix "numpy>=1.19,<2" eq_refl) as (H1 & H2 & _).
  split; [exact H1 | exact H2].
Defined.

(** X12.  The specification [create_conda_spec] returns is determined
    as follows: [dependencies] holds, once each, exactly the declared
    conda packages whose name is not locally editable, and [pip] the
    declared pip packages whose name is not; [pip_local] maps exactly
    the names of the declared constraints that are locally editable to
    their path in the editable index, so an editable package no
    constraint declares is left out; the channels are the declared
    ones, [conda-forge] and [defaults] when none are declared. *)
Theorem conda_spec_contents
    (poncho_spec : Spec.poncho_spec) (c : Spec.conda_section)
    (local_pip_pkgs : gmap string string) (cs : conda_spec) :
  Spec.conda poncho_spec = Some c →
  create_conda_spec poncho_spec local_pip_pkgs = Ok cs →
  NoDup (dependencies cs) ∧ NoDup (pip cs)
  ∧ (∀ d, d ∈ dependencies cs
          ↔ d ∈ default [] (Spec.packages c)
            ∧ only_name d ∉ dom local_pip_pkgs)
  ∧ (∀ d, d ∈ pip cs
          ↔ d ∈ default [] (Spec.pip poncho_spec)
            ∧ only_name d ∉ dom local_pip_pkgs)
  ∧ (∀ n path, pip_local cs !! n = Some path
               ↔ local_pip_pkgs !! n = Some path
                 ∧ ∃ d, d ∈ declared poncho_spec ∧ only_name d = n)
  ∧ channels cs = default ["conda-forge"; "defaults"] (Spec.channels c)
  ∧ name cs = "base".
Proof.
  intros Hconda. unfold create_conda_spec, declared. rewrite Hconda.
  destruct (reclassify_all _ _ ∅) as [deps reqs1] eqn:H1.
  destruct (reclassify_all _ _ reqs1) as [pips reqs] eqn:H2.
  apply SynthFacts.reclassify_all_spec in H1 as [HD1 HR1].
  apply SynthFacts.reclassify_all_spec in H2 as [HD2 HR2].
  intros [= <-]. simpl.
  split; [apply NoDup_elements|]. split; [apply NoDup_elements|].
  split; [| split; [| split; [| done]]].
  - intros d. by rewrite elem_of_elements, HD1, elem_of_list_to_set.
  - intros d. by rewrite elem_of_elements, HD2, elem_of_list_to_set.
  - intros n path. rewrite SynthFacts.lookup_pip_local, HR2, HR1. split.
    + intros [[[Hn | (d & Hd & Hname & Hdom)] | (d & Hd & Hname & Hdom)] Hpath].
      * by apply not_elem_of_empty in Hn.
      * apply elem_of_dom in Hdom as [p Hp]. rewrite Hp in Hpath |- *.
        simpl in Hpath. subst p. split; [done|]. exists d. split; [|done].
        apply elem_of_app. left. by apply elem_of_list_to_set in Hd.
      * apply elem_of_dom in Hdom as [p Hp]. rewrite Hp in Hpath |- *.
        simpl in Hpath. subst p. split; [done|]. exists d. split; [|done].
        apply elem_of_app. right. by apply elem_of_list_to_set in Hd.
    + intros [Hpath (d & Hd & Hname)]. rewrite Hpath. split; [|done].
      assert (Hdom : n ∈ dom local_pip_pkgs) by (apply elem_of_dom; eauto).
      apply elem_of_app in Hd as [Hd | Hd].
      * left. right. exists d. by rewrite elem_of_list_to_set.
      * right. exists d. by rewrite elem_of_list_to_set.
Qed.

Lemma conda_spec_contents_witness :
  NoDup ["python=3.9"]
  ∧ ∀ n path,
      ({[ "mine" := "/src/mine" ]} : gmap string string) !! n = Some path
      ↔ sample_editable !! n = Some path
        ∧ ∃ d, d ∈ declared sample_spec ∧ only_name d = n.
Proof.
  assert (Hcs : create_conda_spec sample_spec sample_editable
                = Ok {| channels := ["conda-forge"; "defaults"];
                        dependencies := ["python=3.9"];
                        pip := ["requests"];
                        name := "base";
                        pip_local := {[ "mine" := "/src/mine" ]} |})
    by (vm_compute; reflexivity).
  destruct (conda_spec_contents sample_spec _ sample_editable _ eq_refl Hcs)
    as (Hnd & _ & _ & _ & Hlocal & _).
  split; [exact Hnd | exact Hlocal].
Defined.

End SpecFacts.

(** ** The fetcher: the other variants and the hook script *)

Module HookFacts.
Import Py Spec Fetcher Hooks.

(** *** Paths *)

Lemma has_slash_app s t : has_slash (s ++ t) = (has_slash s || has_slash t)%bool.
Proof.
  induction s as [|c s IH]; [done|].
  change (has_slash (String c (s ++ t))
          = (has_slash (String c s) || has_slash t)%bool).
  simpl. rewrite IH. by rewrite orb_assoc.
Qed.

Lemma first_component n1 : ∀ n2 r1 r2,
  has_slash n1 = false → has_slash n2 = false →
  (n1 ++ String "/" r1)%string = (n2 ++ String "/" r2)%string → n1 = n2.
Proof.
  induction n1 as [|c n1 IH]; intros [|d n2] r1 r2 H1 H2 Heq; simpl in *.
  - done.
  - injection Heq as <- _. done.
  - injection Heq as -> _. done.
  - change (String c (n1 ++ String "/" r1) = String d (n2 ++ String "/" r2)) in Heq.
    injection Heq as -> Heq. apply orb_false_iff in H1 as [_ H1].
    apply orb_false_iff in H2 as [_ H2]. f_equal. by eapply IH.
Qed.

(** No file a fetch of a plain name writes is the hook script. *)
Lemma beside_hook out_dir n sfx :
  plain_name n = true → has_slash sfx = false →
  ((out_dir ++ "/" ++ n) ++ sfx)%string ≠ hook_path out_dir.
Proof.
  unfold plain_name, hook_path. intros [Hn _]%andb_true_iff Hs.
  apply negb_true_iff in Hn.
  rewrite !FetcherFacts.append_assoc. intros Heq%(inj (String.app out_dir)).
  change ("/" ++ n ++ sfx)%string with (String "/" (n ++ sfx)) in Heq.
  injection Heq as Heq.
  assert (H : has_slash (n ++ sfx) = true) by by rewrite Heq.
  rewrite has_slash_app, Hn, Hs in H. done.
Qed.

Lemma below_hook out_dir n rel :
  plain_name n = true →
  ((out_dir ++ "/" ++ n) ++ "/" ++ rel)%string ≠ hook_path out_dir.
Proof.
  unfold plain_name, hook_path. intros [Hn Hp]%andb_true_iff.
  apply negb_true_iff in Hn. apply negb_true_iff, String.eqb_neq in Hp.
  rewrite !FetcherFacts.append_assoc. intros Heq%(inj (String.app out_dir)).
  change ("/" ++ n ++ "/" ++ rel)%string with (String "/" (n ++ String "/" rel)) in Heq.
  injection Heq as Heq. apply Hp.
  by apply (first_component n "poncho" rel "set_env").
Qed.

Lemma beside_hook_0 out_dir n :
  plain_name n = true → (out_dir ++ "/" ++ n)%string ≠ hook_path out_dir.
Proof.
  intros Hn Heq. apply (beside_hook out_dir n "" Hn eq_refl).
  rewrite <- Heq. clear. generalize (out_dir ++ "/" ++ n)%string. intros s.
  induction s as [|c s IH]; [done|].
  change (String c (s ++ "") = String c s). by rewrite IH.
Qed.

Lemma poncho_dir_is_not_hook out_dir :
  (out_dir ++ "/poncho")%string ≠ hook_path out_dir.
Proof. unfold hook_path. intros Heq%(inj (String.app out_dir)). done. Qed.

Lemma append_cons c (s t : string) : (String c s ++ t)%string = String c (s ++ t).
Proof. reflexivity. Qed.

Lemma append_nil (t : string) : ("" ++ t)%string = t.
Proof. reflexivity. Qed.

Lemma remove_gz_app p : remove_gz (p ++ ".gz") = Some p.
Proof.
  induction p as [|c p IH]; [done|].
  rewrite append_cons. unfold remove_gz; fold remove_gz. rewrite IH.
  destruct (String.eqb_spec (String c (p ++ ".gz")) ".gz") as [Heq|]; [|done].
  exfalso. injection Heq as _ Heq.
  destruct p as [|a p]; [discriminate Heq|].
  rewrite append_cons in Heq. injection Heq as _ Heq.
  destruct p as [|b p]; [discriminate Heq|].
  rewrite append_cons in Heq. injection Heq as _ Heq.
  destruct p; discriminate Heq.
Qed.

Lemma script_text_same out_dir w1 w :
  files w1 !! hook_path out_dir = files w !! hook_path out_dir →
  script_text out_dir w1 = script_text out_dir w.
Proof. unfold script_text. by intros ->. Qed.

Section Tools.
Variable served : string → option string.
Variable repos : string → option (list (string * string)).
Variable tar_members : bool → string → option (list (string * string)).
Variable gunzip : string → option string.

Abbreviation check_call := (check_call served repos tar_members gunzip).
Abbreviation git_step := (git_entry_step served repos tar_members gunzip).
Abbreviation http_step := (http_entry_step served repos tar_members gunzip).

Lemma tar_xf_ok archive dir w w1 :
  check_call ["tar"; "-xf"; archive; "-C"; dir] w = Ok w1 →
  ∃ c members, files w !! archive = Some (File c)
          ∧ tar_members false c = Some members
          ∧ files w1 = place dir members (files w)
          ∧ calls w1 = (calls w ++ [["tar"; "-xf"; archive; "-C"; dir]])%list.
Proof.
  unfold Fetcher.check_call. cbn.
  destruct (files w !! archive) as [[c|]|]; try done.
  destruct (files w !! dir) as [[|]|]; try done. cbn.
  destruct (tar_members false c) as [members|] eqn:Hm; cbn; [|done].
  intros [= <-]. by exists c, members.
Qed.

Lemma gzip_ok path w w1 :
  check_call ["gzip"; "-d"; (path ++ ".gz")%string] w = Ok w1 →
  ∃ c d, files w !! (path ++ ".gz")%string = Some (File c)
         ∧ files w !! path = None
         ∧ gunzip c = Some d
         ∧ files w1 = <[path := File d]> (delete (path ++ ".gz")%string (files w))
         ∧ calls w1 = (calls w ++ [["gzip"; "-d"; (path ++ ".gz")%string]])%list.
Proof.
  unfold Fetcher.check_call. cbn. rewrite remove_gz_app. cbn.
  destruct (files w !! (path ++ ".gz")%string) as [[c|]|]; try done.
  destruct (files w !! path) as [|] eqn:Hp; try done.
  destruct (gunzip c) as [d|] eqn:Hd; cbn; [|done].
  intros [= <-]. by exists c, d.
Qed.

Lemma git_clone_ok repo path w w1 :
  check_call ["git"; "clone"; repo; path] w = Ok w1 →
  ∃ tree, repos repo = Some tree
          ∧ files w !! path = None
          ∧ files w1 = place path tree (<[path := Dir]> (files w))
          ∧ calls w1 = (calls w ++ [["git"; "clone"; repo; path]])%list.
Proof.
  unfold Fetcher.check_call. cbn.
  destruct (repos repo) as [tree|] eqn:Hr; cbn; [|done].
  destruct (files w !! dirname path) as [[|]|]; try done.
  destruct (files w !! path) eqn:Hp; try done.
  intros [= <-]. by exists tree.
Qed.

(** [add_hook] appends its line to the script and touches nothing but
    the script and the directory [poncho]. *)
Lemma add_hook_script out_dir name w w1 :
  add_hook out_dir name w = Ok w1 →
  script_text out_dir w1 = (script_text out_dir w ++ hook_line name)%string
  ∧ calls w1 = calls w
  ∧ ∀ p, p ≠ hook_path out_dir → p ≠ (out_dir ++ "/poncho")%string →
         files w1 !! p = files w !! p.
Proof.
  unfold Fetcher.add_hook, script_text. fold (hook_path out_dir).
  intros H.
  assert (∃ w0, (w0 = w ∨ (files w0 = <[(out_dir ++ "/poncho")%string := Dir]> (files w)
                           ∧ calls w0 = calls w))
                ∧ append_to (hook_path out_dir) (hook_line name) w0 = Ok w1)
    as (w0 & Hw0 & Happ).
  { destruct (negb _); [|by exists w; auto].
    destruct (os_mkdir _ w) as [w0|] eqn:Hmk; simpl in H; [|done].
    apply FetcherFacts.os_mkdir_ok in Hmk as (_ & Hfs & Hc). exists w0. auto. }
  clear H.
  assert (Hsame : files w0 !! hook_path out_dir = files w !! hook_path out_dir).
  { destruct Hw0 as [-> | [-> _]]; [done|].
    apply lookup_insert_ne, poncho_dir_is_not_hook. }
  assert (Hcalls : calls w0 = calls w) by (by destruct Hw0 as [-> | [_ ->]]).
  unfold append_to in Happ. destruct (is_dir w0 _); [|done].
  rewrite <- Hsame.
  destruct (files w0 !! hook_path out_dir) as [[c|]|] eqn:Hs; try done;
    injection Happ as <-; simpl; rewrite lookup_insert_eq;
    (split; [done|]; split; [done|]);
    intros p Hp Hp'; rewrite lookup_insert_ne by done;
    (destruct Hw0 as [-> | [-> _]]; [done|]); by rewrite lookup_insert_ne.
Qed.

Lemma append_empty (s : string) : (s ++ "")%string = s.
Proof.
  induction s as [|c s IH]; [done|].
  change (String c (s ++ "") = String c s). by rewrite IH.
Qed.

Lemma not_the_poncho_dir out_dir n sfx :
  plain_name n = true → sfx = EmptyString ∨ sfx = ".gz" →
  ((out_dir ++ "/" ++ n) ++ sfx)%string ≠ (out_dir ++ "/poncho")%string.
Proof.
  unfold plain_name. intros [_ Hp]%andb_true_iff Hsfx.
  apply negb_true_iff, String.eqb_neq in Hp.
  rewrite !FetcherFacts.append_assoc. intros Heq%(inj (String.app out_dir)).
  change ("/" ++ n ++ sfx)%string with (String "/" (n ++ sfx)) in Heq.
  injection Heq as Heq. destruct Hsfx as [-> | ->].
  - by rewrite append_empty in Heq.
  - clear Hp.
    repeat (destruct n as [|? n]; simpl in Heq;
            [discriminate Heq | injection Heq as _ Heq]).
    destruct n; discriminate Heq.
Qed.

(** *** The git entry *)

(** X13.  A git entry with a non-empty [remote] and a plain name
    whose step succeeds: [git clone] of the remote into
    [<root>/<name>] is the only subprocess, the directory and the
    checked-out files are there afterwards, and the line of the entry
    is appended to the hook script.  The declared [ref] plays no
    part: with any other [ref] the step does the same. *)
Theorem git_entry_clones
    (out_dir git_dir git_repo : string) (g : git_entry) (w w' : world) :
  remote g = Some git_repo →
  Str.truthy git_repo = true →
  plain_name git_dir = true →
  git_step out_dir w (git_dir, g) = Ok w' →
  let path := (out_dir ++ "/" ++ git_dir)%string in
  (∃ tree, repos git_repo = Some tree
           ∧ ∀ rel c, (rel, c) ∈ tree →
                      is_Some (files w' !! (path ++ "/" ++ rel)%string))
  ∧ files w' !! path = Some Dir
  ∧ calls w' = (calls w ++ [["git"; "clone"; git_repo; path]])%list
  ∧ script_text out_dir w' = (script_text out_dir w ++ hook_line git_dir)%string
  ∧ ∀ other_ref,
      git_step out_dir w (git_dir, {| remote := remote g; ref := other_ref |})
      = Ok w'.
Proof.
  intros Hremote Htruthy Hname Hstep path.
  assert (Href : ∀ other_ref,
             git_step out_dir w (git_dir, {| remote := remote g; ref := other_ref |})
             = git_step out_dir w (git_dir, g)) by done.
  pose proof Hstep as Horig.
  unfold Fetcher.git_entry_step in Hstep. rewrite Hremote, Htruthy in Hstep.
  fold path in Hstep.
  destruct (check_call _ w) as [w1|] eqn:Hclone; simpl in Hstep; [|done].
  apply git_clone_ok in Hclone as (tree & Hrepo & Hfresh & Hfs1 & Hc1).
  pose proof (add_hook_script _ _ _ _ Hstep) as (Htext & Hc2 & Hframe).
  assert (Hpath1 : files w1 !! path = Some Dir).
  { rewrite Hfs1, FetcherFacts.place_other; [apply lookup_insert_eq|].
    intros rel Heq. symmetry in Heq. by apply FetcherFacts.app_not_self in Heq. }
  assert (Hhook1 : files w1 !! hook_path out_dir = files w !! hook_path out_dir).
  { rewrite Hfs1, FetcherFacts.place_other.
    - apply lookup_insert_ne. by apply beside_hook_0.
    - intros rel Heq. symmetry in Heq. by apply below_hook in Heq. }
  split; [| split; [| split; [| split]]].
  - exists tree. split; [done|]. intros rel c Hin.
    eapply FetcherFacts.add_hook_keeps; [done|].
    rewrite Hfs1. by eapply FetcherFacts.place_member.
  - rewrite Hframe; [done | by apply beside_hook_0 |].
    intros Heq. apply (not_the_poncho_dir out_dir git_dir "" Hname); [by left|].
    by rewrite append_empty.
  - by rewrite Hc2, Hc1.
  - by rewrite Htext, (script_text_same _ _ _ Hhook1).
  - intros other_ref. by rewrite Href.
Qed.


(** *** The download of an http entry *)

(** X14.  An http entry with a non-empty [url], compression [gzip]
    and a type other than [tar], under a plain name, whose step
    succeeds: the body served for the URL is downloaded to
    [<root>/<name>.gz] and decompressed; afterwards [<root>/<name>]
    holds the decompressed data, [<root>/<name>.gz] is gone, and
    [curl] and [gzip -d] are the two subprocesses. *)
Theorem gzip_entry_replaces_download
    (out_dir filename u : string) (h : http_entry) (w w' : world) :
  url h = Some u →
  Str.truthy u = true →
  is_str (type h) "tar" = false →
  is_str (compression h) "gzip" = true →
  plain_name filename = true →
  http_step out_dir w (filename, h) = Ok w' →
  let path := (out_dir ++ "/" ++ filename)%string in
  ∃ body d, served u = Some body
            ∧ gunzip body = Some d
            ∧ files w' !! path = Some (File d)
            ∧ files w' !! (path ++ ".gz")%string = None
            ∧ calls w' = (calls w ++ [["curl"; u; "--output"; (path ++ ".gz")%string];
                                      ["gzip"; "-d"; (path ++ ".gz")%string]])%list.
Proof.
  intros Hurl Htruthy Htar Hgz Hname Hstep path.
  unfold Fetcher.http_entry_step in Hstep.
  rewrite Hurl, Htruthy, Htar, Hgz in Hstep. simpl andb in Hstep. cbv iota in Hstep.
  fold path in Hstep.
  destruct (check_call ["curl"; _; _; _] w) as [w1|] eqn:Hcurl;
    simpl in Hstep; [|done].
  destruct (check_call ["gzip"; _; _] w1) as [w2|] eqn:Hgunzip;
    simpl in Hstep; [|done].
  apply FetcherFacts.curl_ok in Hcurl as (body & Hserved & Hfs1 & Hc1).
  apply gzip_ok in Hgunzip as (c & d & Hc & _ & Hd & Hfs2 & Hc2).
  rewrite Hfs1, lookup_insert_eq in Hc. injection Hc as <-.
  apply add_hook_script in Hstep as (_ & Hc3 & Hframe).
  exists body, d. split; [done|]. split; [done|]. split; [|split].
  - rewrite Hframe.
    + rewrite Hfs2. apply lookup_insert_eq.
    + by apply beside_hook_0.
    + intros Heq. apply (not_the_poncho_dir out_dir filename "" Hname); [by left|].
      by rewrite append_empty.
  - rewrite Hframe.
    + rewrite Hfs2, lookup_insert_ne; [apply lookup_delete_eq|].
      intros Heq. symmetry in Heq. by apply FetcherFacts.app_not_self in Heq.
    + by apply beside_hook.
    + apply not_the_poncho_dir; [done | by right].
  - rewrite Hc3, Hc2, Hc1, <- app_assoc. done.
Qed.

(** *** The hook script *)

Lemma git_step_script out_dir git_dir git_repo g w w' :
  remote g = Some git_repo → Str.truthy git_repo = true →
  plain_name git_dir = true →
  git_step out_dir w (git_dir, g) = Ok w' →
  script_text out_dir w' = (script_text out_dir w ++ hook_line git_dir)%string
  ∧ calls w' = (calls w ++ [["git"; "clone"; git_repo;
                             (out_dir ++ "/" ++ git_dir)%string]])%list.
Proof.
  intros Hremote Htruthy Hname Hstep.
  unfold Fetcher.git_entry_step in Hstep. rewrite Hremote, Htruthy in Hstep.
  destruct (check_call _ w) as [w1|] eqn:Hclone; simpl in Hstep; [|done].
  apply git_clone_ok in Hclone as (tree & _ & _ & Hfs1 & Hc1).
  apply add_hook_script in Hstep as (Htext & Hc2 & _).
  split; [|by rewrite Hc2].
  rewrite Htext. f_equal. apply script_text_same.
  rewrite Hfs1, FetcherFacts.place_other.
  - apply lookup_insert_ne. by apply beside_hook_0.
  - intros rel Heq. symmetry in Heq. by apply below_hook in Heq.
Qed.

Lemma git_loop_script out_dir entries : ∀ w w',
  Forall (fun e => plain_name e.1 = true) entries →
  for_each (git_step out_dir) entries w = Ok w' →
  script_text out_dir w' = (script_text out_dir w ++ lines (git_fetched entries))%string
  ∧ calls w' = (calls w ++ git_clones out_dir entries)%list.
Proof.
  induction entries as [|[n g] rest IH]; intros w w' Hplain Hloop.
  - injection Hloop as <-. by rewrite append_empty, app_nil_r.
  - apply Forall_cons in Hplain as [Hn Hrest]. simpl in Hn.
    cbn [for_each] in Hloop.
    destruct (git_step out_dir w (n, g)) as [w1|] eqn:Hstep;
      cbn [bind] in Hloop; [|done].
    destruct (IH _ _ Hrest Hloop) as [Htext Hcalls].
    unfold git_fetched, git_clones in *. simpl omap.
    destruct (remote g) as [r|] eqn:Hr; [destruct (Str.truthy r) eqn:Ht|].
    + destruct (git_step_script _ _ _ _ _ _ Hr Ht Hn Hstep) as [Ht1 Hc1].
      rewrite filter_cons_True by (simpl; by rewrite Hr). simpl.
      rewrite Htext, Ht1, Hcalls, Hc1, <- app_assoc.
      by rewrite FetcherFacts.append_assoc.
    + unfold Fetcher.git_entry_step in Hstep. rewrite Hr, Ht in Hstep.
      injection Hstep as <-.
      rewrite filter_cons_False by (simpl; rewrite Hr; simpl; rewrite Ht; done). done.
    + unfold Fetcher.git_entry_step in Hstep. rewrite Hr in Hstep.
      injection Hstep as <-.
      rewrite filter_cons_False by (simpl; rewrite Hr; done). done.
Qed.

(** X15.  When [git_data] returns and the declared names are plain,
    the hook script has grown by exactly one line per entry with a
    non-empty [remote], in declared order, and the subprocesses
    started are the clones of these entries, in the same order; a
    spec without a [git] section changes neither. *)
Theorem git_data_hook_script
    (spec : poncho_spec) (out_dir : string) (w w' : world) :
  let entries := default [] (git spec) in
  Forall (fun e => plain_name e.1 = true) entries →
  git_data served repos tar_members gunzip spec out_dir w = Ok w' →
  script_text out_dir w' = (script_text out_dir w ++ lines (git_fetched entries))%string
  ∧ calls w' = (calls w ++ git_clones out_dir entries)%list.
Proof.
  intros entries Hplain Hrun. unfold Fetcher.git_data in Hrun.
  subst entries. destruct (git spec) as [entries|]; simpl in *.
  - by apply git_loop_script.
  - injection Hrun as <-. by rewrite append_empty, app_nil_r.
Qed.

(** The four ways of downloading leave the hook script alone. *)
Lemma http_step_script out_dir filename u h w w' :
  url h = Some u → Str.truthy u = true →
  plain_name filename = true →
  http_step out_dir w (filename, h) = Ok w' →
  script_text out_dir w' = (script_text out_dir w ++ hook_line filename)%string.
Proof.
  intros Hurl Htruthy Hname Hstep.
  unfold Fetcher.http_entry_step in Hstep. rewrite Hurl, Htruthy in Hstep.
  set (path := (out_dir ++ "/" ++ filename)%string) in *.
  match type of Hstep with
  | bind ?m _ = _ => destruct m as [w1|] eqn:Hdl
  end; simpl in Hstep; [|done].
  apply add_hook_script in Hstep as (Htext & _ & _).
  rewrite Htext. f_equal. apply script_text_same.
  assert (Hcurl : ∀ sfx wa, has_slash sfx = false →
            check_call ["curl"; u; "--output"; (path ++ sfx)%string] w = Ok wa →
            files wa !! hook_path out_dir = files w !! hook_path out_dir).
  { intros sfx wa Hs (body & _ & Hfs & _)%FetcherFacts.curl_ok.
    rewrite Hfs. apply lookup_insert_ne. by apply beside_hook. }
  assert (Hmk : ∀ wa wb, os_mkdir path wa = Ok wb →
            files wb !! hook_path out_dir = files wa !! hook_path out_dir).
  { intros wa wb (_ & Hfs & _)%FetcherFacts.os_mkdir_ok.
    rewrite Hfs. apply lookup_insert_ne. by apply beside_hook_0. }
  assert (Hbelow : ∀ members fs,
            place path members fs !! hook_path out_dir = fs !! hook_path out_dir).
  { intros members fs. apply FetcherFacts.place_other.
    intros rel Heq. symmetry in Heq. by apply below_hook in Heq. }
  destruct (is_str (type h) "tar" && is_str (compression h) "gzip")%bool;
    [|destruct (is_str (type h) "tar"); [|destruct (is_str (compression h) "gzip")]].
  - destruct (check_call ["curl"; _; _; _] w) as [wa|] eqn:H1; simpl in Hdl; [|done].
    destruct (os_mkdir path wa) as [wb|] eqn:H2; simpl in Hdl; [|done].
    apply FetcherFacts.tar_xzf_ok in Hdl as (c & ms & _ & _ & Hfs & _).
    rewrite Hfs, Hbelow, (Hmk _ _ H2). by apply (Hcurl ".tar.gz").
  - destruct (check_call ["curl"; _; _; _] w) as [wa|] eqn:H1; simpl in Hdl; [|done].
    destruct (os_mkdir path wa) as [wb|] eqn:H2; simpl in Hdl; [|done].
    apply tar_xf_ok in Hdl as (c & ms & _ & _ & Hfs & _).
    rewrite Hfs, Hbelow, (Hmk _ _ H2). by apply (Hcurl ".tar").
  - destruct (check_call ["curl"; _; _; _] w) as [wa|] eqn:H1; simpl in Hdl; [|done].
    apply gzip_ok in Hdl as (c & d & _ & _ & _ & Hfs & _).
    rewrite Hfs, lookup_insert_ne by (by apply beside_hook_0).
    rewrite lookup_delete_ne by (by apply beside_hook).
    by apply (Hcurl ".gz").
  - rewrite <- (append_empty path) in Hdl. by apply (Hcurl "") in Hdl.
Qed.

Lemma http_loop_script out_dir entries : ∀ w w',
  Forall (fun e => plain_name e.1 = true) entries →
  for_each (http_step out_dir) entries w = Ok w' →
  script_text out_dir w' = (script_text out_dir w ++ lines (http_fetched entries))%string.
Proof.
  induction entries as [|[n h] rest IH]; intros w w' Hplain Hloop.
  - injection Hloop as <-. by rewrite append_empty.
  - apply Forall_cons in Hplain as [Hn Hrest]. simpl in Hn.
    cbn [for_each] in Hloop.
    destruct (http_step out_dir w (n, h)) as [w1|] eqn:Hstep;
      cbn [bind] in Hloop; [|done].
    pose proof (IH _ _ Hrest Hloop) as Htext.
    unfold http_fetched in *.
    destruct (url h) as [u|] eqn:Hu; [destruct (Str.truthy u) eqn:Ht|].
    + pose proof (http_step_script _ _ _ _ _ _ Hu Ht Hn Hstep) as Ht1.
      rewrite filter_cons_True by (simpl; by rewrite Hu). simpl.
      rewrite Htext, Ht1. by rewrite FetcherFacts.append_assoc.
    + unfold Fetcher.http_entry_step in Hstep. rewrite Hu, Ht in Hstep.
      injection Hstep as <-.
      rewrite filter_cons_False by (simpl; rewrite Hu; simpl; rewrite Ht; done). done.
    + unfold Fetcher.http_entry_step in Hstep. rewrite Hu in Hstep.
      injection Hstep as <-.
      rewrite filter_cons_False by (simpl; rewrite Hu; done). done.
Qed.

(** X16.  When [http_data] returns and the declared names are
    plain, the hook script has grown by exactly one line per entry
    with a non-empty [url], in declared order, whatever the type and
    compression of the entries; a spec without an [http] section
    leaves the script as it is. *)
Theorem http_data_hook_script
    (spec : poncho_spec) (out_dir : string) (w w' : world) :
  let entries := default [] (http spec) in
  Forall (fun e => plain_name e.1 = true) entries →
  http_data served repos tar_members gunzip spec out_dir w = Ok w' →
  script_text out_dir w' = (script_text out_dir w ++ lines (http_fetched entries))%string.
Proof.
  intros entries Hplain Hrun. unfold Fetcher.http_data in Hrun.
  subst entries. destruct (http spec) as [entries|]; simpl in *.
  - by apply http_loop_script.
  - injection Hrun as <-. by rewrite append_empty.
Qed.

End Tools.

Lemma git_entry_clones_witness :
  ∃ w', git_entry_step sample_net sample_git sample_tar sample_unzip
                       "/env" sample_world
                       ("tools", {| remote := Some "https://host/tools.git";
                                    ref := Some "v1" |}) = Ok w'
        ∧ files w' !! "/env/tools" = Some Dir
        ∧ script_text "/env" w' = hook_line "tools".
Proof.
  assert (Hstep : ∃ w',
             git_entry_step sample_net sample_git sample_tar sample_unzip
                            "/env" sample_world
                            ("tools", {| remote := Some "https://host/tools.git";
                                         ref := Some "v1" |}) = Ok w')
    by (eexists; vm_compute; reflexivity).
  destruct Hstep as [w' Hstep]. exists w'. split; [exact Hstep|].
  destruct (git_entry_clones sample_net sample_git sample_tar sample_unzip
              "/env" "tools" "https://host/tools.git"
              {| remote := Some "https://host/tools.git"; ref := Some "v1" |}
              sample_world w'
              eq_refl eq_refl eq_refl Hstep) as (_ & Hdir & _ & Htext & _).
  split; [exact Hdir | exact Htext].
Defined.



Lemma gzip_entry_replaces_download_witness :
  ∃ w' body d,
    http_entry_step sample_net sample_git sample_tar sample_unzip
                    "/env" sample_world
                    ("blob", {| url := Some "http://host/blob.gz"; type := None;
                                compression := Some "gzip" |}) = Ok w'
    ∧ sample_net "http://host/blob.gz" = Some body
    ∧ sample_unzip body = Some d
    ∧ files w' !! "/env/blob" = Some (File d)
    ∧ files w' !! "/env/blob.gz" = None.
Proof.
  assert (Hstep : ∃ w',
             http_entry_step sample_net sample_git sample_tar sample_unzip
                             "/env" sample_world
                             ("blob", {| url := Some "http://host/blob.gz";
                                         type := None;
                                         compression := Some "gzip" |}) = Ok w')
    by (eexists; vm_compute; reflexivity).
  destruct Hstep as [w' Hstep]. exists w'.
  destruct (gzip_entry_replaces_download sample_net sample_git sample_tar sample_unzip
              "/env" "blob" "http://host/blob.gz"
              {| url := Some "http://host/blob.gz"; type := None;
                 compression := Some "gzip" |}
              sample_world w' eq_refl eq_refl eq_refl eq_refl eq_refl Hstep)
    as (body & d & Hbody & Hd & Hfile & Hgone & _).
  exists body, d. repeat split; assumption.
Defined.

Lemma git_data_hook_script_witness :
  ∃ w', git_data sample_net sample_git sample_tar sample_unzip
                 sample_git_spec "/env" sample_world = Ok w'
        ∧ script_text "/env" w'
          = (script_text "/env" sample_world
             ++ lines (git_fetched (default [] (git sample_git_spec))))%string
        ∧ calls w' = (calls sample_world
                      ++ git_clones "/env" (default [] (git sample_git_spec)))%list.
Proof.
  assert (Hrun : ∃ w', git_data sample_net sample_git sample_tar sample_unzip
                                sample_git_spec "/env" sample_world = Ok w')
    by (eexists; vm_compute; reflexivity).
  destruct Hrun as [w' Hrun]. exists w'. split; [exact Hrun|].
  apply (git_data_hook_script sample_net sample_git sample_tar sample_unzip
           sample_git_spec "/env" sample_world w'); [|exact Hrun].
  repeat constructor.
Defined.

Lemma http_data_hook_script_witness :
  ∃ w', http_data sample_net sample_git sample_tar sample_unzip
                  sample_blob_spec "/env" sample_world = Ok w'
        ∧ script_text "/env" w'
          = (script_text "/env" sample_world
             ++ lines (http_fetched (default [] (http sample_blob_spec))))%string.
Proof.
  assert (Hrun : ∃ w', http_data sample_net sample_git sample_tar sample_unzip
                                 sample_blob_spec "/env" sample_world = Ok w')
    by (eexists; vm_compute; reflexivity).
  destruct Hrun as [w' Hrun]. exists w'. split; [exact Hrun|].
  apply (http_data_hook_script sample_net sample_git sample_tar sample_unzip
           sample_blob_spec "/env" sample_world w'); [|exact Hrun].
  repeat constructor.
Defined.

Example sample_fetch :
  ∃ w1 w2,
    git_data sample_net sample_git sample_tar sample_unzip
             {| conda := None; pip := None; git := Some sample_git_entries;
                http := None |} "/env" sample_world = Ok w1
    ∧ http_data sample_net sample_git sample_tar sample_unzip
             {| conda := None; pip := None; git := None;
                http := Some sample_http_entries |} "/env" w1 = Ok w2
    ∧ script_text "/env" w2 = lines ["tools"; "blob"; "notes"]
    ∧ files w2 !! "/env/blob" = Some (File "blob data")
    ∧ files w2 !! "/env/blob.gz" = None.
Proof. do 2 eexists. split; [vm_compute; reflexivity|]. split; [vm_compute; reflexivity|]. vm_compute. done. Qed.

End HookFacts.

(** ** The runner: clean-up, directory environments, the command *)

Module RunFacts.
Import Runner RunnerFacts Events.

(** *** The [EXIT] trap *)


(** *** An environment that is a directory *)

Lemma parsed_environment args o n :
  parse_arguments args = inr (o, n) → String.eqb (ENV_NAME o) "" = false.
Proof.
  unfold parse_arguments.
  destruct (parse_loop _ args) as [[evs' code']|[o' rest]]; [done|].
  destruct (String.eqb (ENV_NAME o') "") eqn:He; [done|].
  destruct (_ <? _)%nat; [done|]. by intros [= <- _].
Qed.

(** X18.  When [--environment] names a directory, the run creates no
    temporary directory, takes no lock, unpacks and relocates nothing,
    writes no marker and removes no directory, whatever [--unpack-to]
    says; the environment is activated where it is, and it is
    activated unless its path is also reported to be a file. *)
Theorem directory_environment_is_used_in_place
    (h : host) (inherited : gmap string string) (args : list string)
    (o : options) (n : nat) :
  parse_arguments args = inr (o, n) →
  dir_exists h (ENV_NAME o) = true →
  let tr := trace (run h inherited args) in
  existsb is_unpack_event tr = false
  ∧ (∀ d e, In (SourceActivate d e) tr → d = realpath h (ENV_NAME o))
  ∧ (file_exists h (realpath h (ENV_NAME o)) = false →
     ∃ e, In (SourceActivate (realpath h (ENV_NAME o)) e) tr).
Proof.
  intros Hparse Hdir tr. subst tr. unfold run.
  rewrite Hparse, Hdir, (parsed_environment _ _ _ Hparse).
  unfold cleanup. simpl.
  destruct (file_exists h (realpath h (ENV_NAME o))) eqn:Hfile.
  - split; [by destruct (negb _) | split; [|done]].
    intros d e H. destruct (negb _); in_trace H.
  - destruct (activate h _ _) as [activated env3] eqn:Hact.
    repeat (match goal with
            | |- context [if ?b then _ else _] => destruct b
            end; simpl);
      (split; [done|]);
      (split; [intros d e H; in_trace H; by injection H as <- _ | intros _]);
      eexists; repeat (first [left; reflexivity | right]).
Qed.

(** *** The command *)

Lemma parse_loop_suffix n : ∀ o args o' rest,
  (List.length args ≤ n)%nat →
  parse_loop o args = inr (o', rest) → ∃ pre, args = (pre ++ rest)%list.
Proof.
  induction n as [|n IH]; intros o [|a rest0] o' rest Hlen; simpl in *;
    try lia; try (intros [= <- <-]; by exists []).
  repeat (match goal with
          | |- context [if ?b then _ else _] => destruct b
          end; try done).
  all: try (destruct rest0 as [|v rest']).
  all: try (intros [= <- <-]; first [by exists [] | by exists [a]]).
  all: intros H; apply IH in H as [pre ->]; simpl in *; try lia.
  all: first [by exists (a :: pre) | by exists (a :: v :: pre)].
Qed.

Lemma run_exec_argv h inherited args argv e :
  In (Exec argv e) (trace (run h inherited args)) →
  ∃ o n, parse_arguments args = inr (o, n) ∧ argv = drop n args.
Proof.
  unfold run.
  destruct (parse_arguments args) as [[evs code]|[o n]] eqn:Hparse.
  { apply parse_arguments_exit in Hparse as [[[-> | ->] ->] | [[-> | ->] ->]];
      simpl; intros H; in_trace H. }
  unfold locked_unpack, untar_script, cleanup.
  split_run; intros H; in_trace H; injection H as <- <-; by exists o, n.
Qed.

(** X19.  The command the runner executes is what follows the
    options it consumed, as long as fewer than 256 arguments were
    consumed; [parse_arguments] hands the count over as its return
    status, so when the count is a multiple of 256 nothing is shifted
    and the whole argument list, options included, is executed as the
    command. *)
Theorem command_is_what_follows_the_options
    (h : host) (inherited : gmap string string) (args : list string)
    (o : options) (rest argv : list string) (e : gmap string string) :
  parse_loop initial_options args = inr (o, rest) →
  In (Exec argv e) (trace (run h inherited args)) →
  let consumed := (List.length args - List.length rest)%nat in
  ((consumed < 256)%nat → argv = rest)
  ∧ ((consumed mod 256 = 0)%nat → argv = args).
Proof.
  intros Hloop (o' & n & Hparse & ->)%run_exec_argv consumed.
  assert (Hn : n = (consumed mod 256)%nat).
  { revert Hparse. unfold parse_arguments. rewrite Hloop.
    destruct (String.eqb _ _); [done|]. destruct (_ <? _)%nat; [done|].
    intros [= _ <-]. reflexivity. }
  rewrite Hn. clear Hn Hparse.
  apply (parse_loop_suffix (List.length args)) in Hloop as [pre Hpre]; [|done].
  assert (Hc : consumed = List.length pre).
  { unfold consumed. rewrite Hpre, length_app. lia. }
  split.
  - intros Hlt. rewrite Nat.mod_small by done.
    rewrite Hc, Hpre. apply drop_app_length.
  - by intros ->.
Qed.

Lemma directory_environment_is_used_in_place_witness :
  existsb is_unpack_event (trace (run dir_host sample_inherited dir_args)) = false
  ∧ ∃ e, In (SourceActivate "/opt/env" e)
            (trace (run dir_host sample_inherited dir_args)).
Proof.
  assert (Hparse : parse_arguments dir_args
                   = inr (Options "/scratch/env" "/opt/env" "300" false, 4%nat))
    by (vm_compute; reflexivity).
  destruct (directory_environment_is_used_in_place dir_host sample_inherited
              dir_args _ _ Hparse eq_refl) as (H1 & _ & H3).
  split; [exact H1 | exact (H3 eq_refl)].
Defined.

Lemma command_is_what_follows_the_options_witness :
  ∃ argv e,
    In (Exec argv e)
       (trace (run (sample_host Acquired valid_archive 0) sample_inherited
                   sample_args))
    ∧ argv = ["python"; "-c"; "import requests"].
Proof.
  assert (Hloop : parse_loop initial_options sample_args
                  = inr (Options "/scratch/env" "env.tar.gz" "300" false,
                         ["python"; "-c"; "import requests"]))
    by (vm_compute; reflexivity).
  assert (Hin : In (Exec ["python"; "-c"; "import requests"] sample_command_env)
                   (trace (run (sample_host Acquired valid_archive 0)
                               sample_inherited sample_args)))
    by (vm_compute; do 9 right; left; reflexivity).
  exists ["python"; "-c"; "import requests"], sample_command_env.
  split; [exact Hin|].
  destruct (command_is_what_follows_the_options _ _ _ _ _ _ _ Hloop Hin) as [H _].
  apply H. simpl. lia.
Defined.

(** With 256 arguments before the command, the options are executed
    as the command. *)
Example options_executed_after_256_arguments :
  ∃ e, In (Exec long_args e)
          (trace (run (sample_host Acquired valid_archive 0) sample_inherited
                      long_args)).
Proof. eexists. vm_compute. do 10 right. left. reflexivity. Qed.

End RunFacts.

(** ** The lock protocol for any archive *)

Module ProtocolFacts.
Import Runner Shared Protocol.

(** *** Mutual exclusion *)

Lemma exclusive_init n : exclusive (init n).
Proof.
  intros i. simpl. split; [done|]. by intros [sp [[=] _]%lookup_replicate].
Qed.

Lemma keep_in_script s i sp sp' d perf :
  exclusive s → procs s !! i = Some (InScript sp) →
  exclusive (System d (lock s) (<[i := InScript sp']> (procs s)) perf).
Proof.
  intros Hexcl Hi k. simpl. split.
  - intros [sq Hk]%Hexcl. destruct (decide (i = k)) as [<-|Hne].
    + exists sp'. apply list_lookup_insert_eq. by eapply lookup_lt_Some.
    + exists sq. by rewrite list_lookup_insert_ne.
  - intros [sq Hk]. apply Hexcl.
    apply list_lookup_insert_Some in Hk as [(<- & _ & _) | (_ & Hk)]; eauto.
Qed.

Lemma keep_outside s i p p' d perf :
  exclusive s → procs s !! i = Some p →
  in_script p = false → in_script p' = false →
  exclusive (System d (lock s) (<[i := p']> (procs s)) perf).
Proof.
  intros Hexcl Hi Hp Hp' k. simpl. split.
  - intros [sq Hk]%Hexcl. exists sq. rewrite list_lookup_insert_ne; [done|].
    intros <-. rewrite Hi in Hk. injection Hk as ->. done.
  - intros [sq Hk]. apply Hexcl.
    apply list_lookup_insert_Some in Hk as [(<- & -> & _) | (_ & Hk)]; [done | eauto].
Qed.

Lemma acquire s i d perf :
  exclusive s → lock s = None → procs s !! i = Some AtFlock →
  exclusive (System d (Some i) (<[i := InScript AtCheck]> (procs s)) perf).
Proof.
  intros Hexcl Hfree Hi k. simpl. split.
  - intros [= <-]. exists AtCheck. apply list_lookup_insert_eq.
    by eapply lookup_lt_Some.
  - intros [sq Hk].
    apply list_lookup_insert_Some in Hk as [(<- & _ & _) | (_ & Hk)]; [done|].
    assert (Hl : lock s = Some k) by (apply Hexcl; eauto). congruence.
Qed.

Lemma release s i sp p' d perf :
  exclusive s → procs s !! i = Some (InScript sp) → in_script p' = false →
  exclusive (System d None (<[i := p']> (procs s)) perf).
Proof.
  intros Hexcl Hi Hp' k. simpl. split; [done|].
  intros [sq Hk].
  apply list_lookup_insert_Some in Hk as [(<- & -> & _) | (Hne & Hk)]; [done|].
  assert (Hl : lock s = Some k) by (apply Hexcl; eauto).
  assert (Hl' : lock s = Some i) by (apply Hexcl; eauto). congruence.
Qed.

Lemma step_exclusive a c s : exclusive s → exclusive (step a c s).
Proof.
  intros Hexcl. unfold step, move.
  destruct (procs s !! who c) as [p|] eqn:Hp; [|done].
  destruct p as [|sp| | | |]; try done.
  - destruct (lock s) as [j|] eqn:Hlock.
    + destruct (expires c); [|done]. rewrite <- Hlock.
      by eapply keep_outside.
    + by apply acquire.
  - destruct sp as [| | | |r].
    + by eapply keep_in_script.
    + destruct (tar_ok a); by eapply keep_in_script.
    + destruct (conda_unpack_ok a); by eapply keep_in_script.
    + by eapply keep_in_script.
    + eapply release; [done.. |]. by destruct r.
  - eapply keep_outside; [done.. |]. by destruct (activate_ok c).
  - by eapply keep_outside.
Qed.

Lemma run_schedule_exclusive a sched : ∀ s,
  exclusive s → exclusive (run_schedule a sched s).
Proof.
  unfold run_schedule.
  induction sched as [|c sched IH]; intros s Hexcl; simpl; [done|].
  by apply IH, step_exclusive.
Qed.

(** X20.  Whatever the archive, the number of invocations and the
    schedule: the lock is held exactly when an invocation is inside
    [UNTAR_SCRIPT], by that invocation, and no two invocations are
    inside the script at the same time. *)
Theorem lock_is_exclusive (a : archive) (n : nat) (sched : list choice) :
  let s := run_schedule a sched (init n) in
  exclusive s
  ∧ (∀ i j sp sq, procs s !! i = Some (InScript sp) →
                  procs s !! j = Some (InScript sq) → i = j).
Proof.
  intros s.
  assert (Hexcl : exclusive s) by apply run_schedule_exclusive, exclusive_init.
  split; [done|]. intros i j sp sq Hi Hj.
  assert (Hli : lock s = Some i) by (apply Hexcl; eauto).
  assert (Hlj : lock s = Some j) by (apply Hexcl; eauto). congruence.
Qed.

(** *** A broken archive *)

Lemma stalled_init a n : stalled a (init n).
Proof.
  repeat split. by intros i p [-> _]%lookup_replicate.
Qed.

Lemma quiet_insert a (l : list pc) i p' :
  (∀ k p, l !! k = Some p → quiet a p = true) → quiet a p' = true →
  ∀ k p, <[i := p']> l !! k = Some p → quiet a p = true.
Proof.
  intros Hall Hp' k p Hk.
  apply list_lookup_insert_Some in Hk as [(_ & <- & _) | (_ & Hk)]; eauto.
Qed.

Lemma step_stalled a c s : broken a = true → stalled a s → stalled a (step a c s).
Proof.
  unfold broken. intros Hbroken (Hm & Hperf & Hall). unfold step, move.
  destruct (procs s !! who c) as [p|] eqn:Hp; [|done].
  pose proof (Hall _ _ Hp) as Hq.
  destruct p as [|sp| | | |]; try done.
  - destruct (lock s).
    + destruct (expires c); [|done].
      repeat split; simpl; try done. by apply quiet_insert.
    + repeat split; simpl; try done. by apply quiet_insert.
  - destruct sp as [| | | |r]; simpl in Hq; try done.
    + rewrite Hm. repeat split; simpl; try done. by apply quiet_insert.
    + destruct (tar_ok a) eqn:Ht; repeat split; simpl; try done;
        by apply quiet_insert.
    + rewrite Hq in Hbroken. simpl in Hbroken.
      apply negb_true_iff in Hbroken. rewrite Hbroken.
      repeat split; simpl; try done. by apply quiet_insert.
    + destruct r as [f|]; [|done].
      repeat split; simpl; try done. by apply quiet_insert.
Qed.

Lemma run_schedule_stalled a sched : ∀ s,
  broken a = true → stalled a s → stalled a (run_schedule a sched s).
Proof.
  unfold run_schedule.
  induction sched as [|c sched IH]; intros s Hb Hs; simpl; [done|].
  by apply IH, step_stalled.
Qed.

(** X21.  With an archive on which [tar] or [conda-unpack] fails,
    whatever the number of invocations and the schedule: the marker is
    never written, no invocation completes the relocation, and no
    invocation gets as far as activating the environment or running
    its command; the invocations that have ended have failed, for a
    reason other than the activation. *)
Theorem broken_archive_never_runs (a : archive) (n : nat) (sched : list choice) :
  broken a = true →
  let s := run_schedule a sched (init n) in
  marker (dir s) = false
  ∧ performers s = []
  ∧ ∀ i p, procs s !! i = Some p →
           passed p = false
           ∧ (finished p = true → ∃ f, p = Failed f ∧ f ≠ ActivationFailure).
Proof.
  intros Hbroken s.
  destruct (run_schedule_stalled a sched (init n) Hbroken (stalled_init a n))
    as (Hm & Hperf & Hall).
  split; [done|]. split; [done|]. intros i p Hp.
  specialize (Hall i p Hp).
  destruct p as [|[| | | |[f|]]| | | |f]; simpl in *; try done.
  split; [done|]. intros _. exists f. split; [done|]. by intros ->.
Qed.

Lemma broken_archive_never_runs_witness :
  marker (dir (run_schedule sample_broken sample_schedule (init 3))) = false
  ∧ performers (run_schedule sample_broken sample_schedule (init 3)) = [].
Proof.
  destruct (broken_archive_never_runs sample_broken 3 sample_schedule eq_refl)
    as (H1 & H2 & _).
  split; [exact H1 | exact H2].
Defined.

(** *** Progress *)

Lemma unfinished_lookup (l : list pc) :
  forallb finished l = false → ∃ i p, l !! i = Some p ∧ finished p = false.
Proof.
  induction l as [|p l IH]; simpl; [done|].
  destruct (finished p) eqn:Hp; simpl.
  - intros (i & q & Hi & Hq)%IH. by exists (S i), q.
  - intros _. by exists 0%nat, p.
Qed.

Lemma changed (s s' : system) i p :
  procs s !! i = Some p → procs s' !! i ≠ Some p → s' ≠ s.
Proof. intros Hi Hne ->. done. Qed.

(** An invocation that is not waiting for a lock somebody holds moves
    when it is scheduled. *)
Lemma scheduled_moves a s j q :
  procs s !! j = Some q → finished q = false →
  (q = AtFlock → lock s = None) →
  step a (patient j) s ≠ s.
Proof.
  intros Hj Hq Hfree. apply (changed _ _ j q Hj).
  assert (Hlt : (j < List.length (procs s))%nat) by by eapply lookup_lt_Some.
  unfold step, move. simpl who. rewrite Hj.
  destruct q as [|sq| | | |]; try done.
  - rewrite (Hfree eq_refl). simpl. by rewrite list_lookup_insert_eq.
  - destruct sq as [| | | |r]; simpl;
      repeat (match goal with
              | |- context [if ?b then _ else _] => destruct b
              end; simpl);
      rewrite list_lookup_insert_eq by done; try done.
    by destruct r.
  - simpl. by rewrite list_lookup_insert_eq.
  - simpl. by rewrite list_lookup_insert_eq.
Qed.

(** X22.  The protocol does not deadlock: whatever the archive and
    the schedule so far, as long as some invocation has not ended
    there is an invocation whose next step changes the state, without
    anybody's wait for the lock expiring. *)
Theorem some_invocation_can_move (a : archive) (n : nat) (sched : list choice) :
  let s := run_schedule a sched (init n) in
  all_finished s = false →
  ∃ i, step a (patient i) s ≠ s.
Proof.
  intros s (i & p & Hi & Hp)%unfinished_lookup.
  assert (Hexcl : exclusive s) by apply run_schedule_exclusive, exclusive_init.
  destruct (lock s) as [j|] eqn:Hlock.
  - destruct (proj1 (Hexcl j) Hlock) as [sq Hj].
    exists j. by eapply scheduled_moves.
  - exists i. by eapply scheduled_moves.
Qed.

Lemma some_invocation_can_move_witness :
  ∃ i, step valid_archive (patient i)
            (run_schedule valid_archive [at_ 1; at_ 0] (init 3))
       ≠ run_schedule valid_archive [at_ 1; at_ 0] (init 3).
Proof.
  apply (some_invocation_can_move valid_archive 3 [at_ 1; at_ 0]). reflexivity.
Defined.

End ProtocolFacts.
